(** * The Istio adapter: operation dispatch, kubeconfig ingestion, OAM processing

    A shallow embedding of [istio/istio.go] ([ApplyOperation],
    [CreateKubeconfigs], [ProcessOAM]).

    The adapter talks to the outside world through a handful of interfaces:
    the kubeconfig store ([meshkit/config.Handler]), the event stream
    ([StreamErr], [StreamWarn], [StreamInfo] of the embedded
    [adapter.Adapter]), the logger, and the methods that mutate the cluster
    ([installIstio], [applyPolicy], ...).  The store is modelled as a state
    machine behind a type class; every other call is recorded, in program
    order, in a trace of [Action]s, and the answer to a call is read from an
    oracle ([World]).  A goroutine started with [go] is a value of type
    [G unit] which the dispatcher returns without running it. *)

From Stdlib Require Import String Ascii List Bool Arith Lia.
From stdpp Require Import base option list strings gmap.
Import ListNotations.
Local Open Scope string_scope.
Local Open Scope list_scope.

(** ** Go strings *)

Module strings.

(** [strings.Contains(s, substr)] *)
Fixpoint Contains (s substr : string) : bool :=
  if String.prefix substr s then true
  else match s with
       | EmptyString => false
       | String _ s' => Contains s' substr
       end.

(** [strings.Join(elems, sep)] *)
Fixpoint Join (elems : list string) (sep : string) : string :=
  match elems with
  | [] => ""
  | [x] => x
  | x :: rest => x +:+ sep +:+ Join rest sep
  end.

(** [sub] occurs in [s]. *)
Definition Infix (sub s : string) : Prop :=
  exists pre post : string, s = pre +:+ sub +:+ post.

End strings.

(** ** Errors *)

(** A Go [error] value: either a plain error made by [errors.New] or
    [fmt.Errorf], or a classified error of [meshkit/errors] carrying a code.
    [Error] is the method [Error()]. *)
Inductive error : Type :=
| errorString (msg : string)
| meshkitError (code msg : string).

Definition Error (e : error) : string :=
  match e with
  | errorString msg => msg
  | meshkitError _ msg => msg
  end.

(** [errors.New] of the Go standard library (imported as [stderrors]). *)
Definition stderrors_New (msg : string) : error := errorString msg.

(** ** Data model *)

(** A decoded YAML or JSON document ([interface{}] after unmarshalling). *)
#[local] Set Warnings "-register-all".
Inductive any : Type :=
| AStr (s : string)
| ASeq (items : list any)
| AMap (fields : list (string * any)).
#[local] Set Warnings "register-all".

Module models.
(** [models.Kubeconfig] *)
Record Kubeconfig := {
  APIVersion : string;
  Kind : string;
  Clusters : any;
  Contexts : any;
  CurrentContext : string;
  Preferences : any;
  Users : any
}.
End models.

Module meshes.
Inductive EventType := EventType_INFO | EventType_WARN | EventType_ERROR | EventType_DEBUG.

Record EventsResponse := {
  OperationId : string;
  Summary : string;
  Details : string;
  EventType_ : EventType;
  ErrorCode : string;
  ProbableCause : string;
  SuggestedRemediation : string;
  Component : string;
  ComponentName : string
}.

(** Field assignments [ee.Summary = ...] and so on. *)
Definition set_Summary (v : string) (e : EventsResponse) : EventsResponse :=
  {| OperationId := OperationId e; Summary := v; Details := Details e;
     EventType_ := EventType_ e; ErrorCode := ErrorCode e;
     ProbableCause := ProbableCause e;
     SuggestedRemediation := SuggestedRemediation e;
     Component := Component e; ComponentName := ComponentName e |}.
Definition set_Details (v : string) (e : EventsResponse) : EventsResponse :=
  {| OperationId := OperationId e; Summary := Summary e; Details := v;
     EventType_ := EventType_ e; ErrorCode := ErrorCode e;
     ProbableCause := ProbableCause e;
     SuggestedRemediation := SuggestedRemediation e;
     Component := Component e; ComponentName := ComponentName e |}.
Definition set_ErrorCode (v : string) (e : EventsResponse) : EventsResponse :=
  {| OperationId := OperationId e; Summary := Summary e; Details := Details e;
     EventType_ := EventType_ e; ErrorCode := v;
     ProbableCause := ProbableCause e;
     SuggestedRemediation := SuggestedRemediation e;
     Component := Component e; ComponentName := ComponentName e |}.
Definition set_ProbableCause (v : string) (e : EventsResponse) : EventsResponse :=
  {| OperationId := OperationId e; Summary := Summary e; Details := Details e;
     EventType_ := EventType_ e; ErrorCode := ErrorCode e;
     ProbableCause := v;
     SuggestedRemediation := SuggestedRemediation e;
     Component := Component e; ComponentName := ComponentName e |}.
Definition set_SuggestedRemediation (v : string) (e : EventsResponse) : EventsResponse :=
  {| OperationId := OperationId e; Summary := Summary e; Details := Details e;
     EventType_ := EventType_ e; ErrorCode := ErrorCode e;
     ProbableCause := ProbableCause e;
     SuggestedRemediation := v;
     Component := Component e; ComponentName := ComponentName e |}.
End meshes.

Module adapter.
(** [adapter.Operation]; [Version] and [Template] are string types. *)
Record Operation := {
  Description : string;
  Versions : list string;
  Templates : list string;
  AdditionalProperties : gmap string string
}.

(** [adapter.OperationRequest] *)
Record OperationRequest := {
  OperationName : string;
  Namespace : string;
  Username : string;
  CustomBody : string;
  IsDeleteOperation : bool;
  OperationID : string;
  K8sConfigs : list string;
  Version : string
}.

(** [adapter.OAMRequest] *)
Record OAMRequest := {
  OAM_Username : string;
  DeleteOp : bool;
  OamComps : list string;
  OamConfig : string;
  OAM_K8sConfigs : list string
}.
End adapter.

(** [adapter.Operations] is [map[string]*Operation]: a name that is not a
    key yields a nil pointer. *)
Abbreviation Operations := (gmap string adapter.Operation).

(** [adapter.SMITestOptions] (the context field carries no data). *)
Record SMITestOptions := {
  smi_OperationID : string;
  smi_Manifest : string;
  smi_Namespace : string;
  smi_Labels : list (string * string);
  smi_Annotations : list (string * string)
}.

(** ** The interfaces the adapter consumes *)

(** [meshkit/config.Handler], the interface of [istio.KubeconfigHandler]:
    a key-value store.  [SetObject] can fail; what a failing call leaves in
    the store is up to the implementation. *)
Class Handler (H : Type) := {
  SetKey : H -> string -> string -> H;
  GetKey : H -> string -> string;
  SetObject : H -> string -> any -> H * option error;
  GetObject : H -> string -> option any
}.

(** The store behaves as a key-value store: a key reads back what was last
    written to it, and writing one key leaves the others alone (also when
    [SetObject] fails). *)
Class LawfulHandler (H : Type) `{Handler H} := {
  GetKey_SetKey_eq : forall h k v, GetKey (SetKey h k v) k = v;
  GetKey_SetKey_ne : forall h k k' v, k <> k' -> GetKey (SetKey h k v) k' = GetKey h k';
  GetObject_SetKey_ne : forall h k k' v, k <> k' -> GetObject (SetKey h k v) k' = GetObject h k';
  GetKey_SetObject_ne : forall h k k' v, k <> k' -> GetKey (SetObject h k v).1 k' = GetKey h k';
  GetObject_SetObject_eq : forall h k v, (SetObject h k v).2 = None -> GetObject (SetObject h k v).1 k = Some v;
  GetObject_SetObject_ne : forall h k k' v, k <> k' -> GetObject (SetObject h k v).1 k' = GetObject h k'
}.

(** Calls to the methods that act on the cluster, with their arguments. *)
Inductive Call : Type :=
| installIstio (del useManifest : bool) (version namespace profile : string) (kubeconfigs : list string)
| installSampleApp (namespace : string) (del : bool) (templates kubeconfigs : list string)
| RunSMITest (opts : SMITestOptions)
| applyPolicy (namespace : string) (del : bool) (templates kubeconfigs : list string)
| applyCustomOperation (namespace manifest : string) (del : bool) (kubeconfigs : list string)
| LoadNamespaceToMesh (namespace : string) (del : bool) (kubeconfigs : list string)
| installAddon (namespace : string) (del : bool) (service : string) (patches templates kubeconfigs : list string)
| patchWithEnvoyFilter (namespace : string) (del : bool) (app : string) (templates : list string) (patchFile : string) (kubeconfigs : list string)
| HandleComponents (comps : list any) (isDel : bool) (kubeconfigs : list string)
| HandleApplicationConfiguration (config : any) (isDel : bool) (kubeconfigs : list string).

(** What the adapter does to the outside world, in program order.  The
    three stream methods of the embedded [adapter.Adapter] take the record
    as the handler left it; they set its event type themselves and publish
    it, and the two that take an error log it. *)
Inductive Action : Type :=
| Invoke (c : Call) (result : string) (err : option error)
| Go_RunVet (kubeconfigs : list string)
| StreamErr (e : meshes.EventsResponse) (err : error)
| StreamWarn (e : meshes.EventsResponse) (err : error)
| StreamInfo (e : meshes.EventsResponse)
| Log_Error (err : error)
| Log_Info (msg : string).

(** Declarations of packages outside [istio/istio.go]: the error values of
    [istio/error.go], the operation names and keys of [internal/config] and
    of the adapter library's [common] and [status] packages, and the
    classification functions of [meshkit/errors].  [mergeErrors_separator]
    is what [mergeErrors] puts between two messages. *)
Class Decls := {
  GetCode : error -> string;
  GetCause : error -> string;
  GetRemedy : error -> string;
  ErrFetchIstioVersions : error;
  ErrOpInvalid : error;
  ErrParseOAMComponent : error;
  ErrParseOAMConfig : error;
  ErrIstioVet : error -> error;
  ErrProcessOAM : error -> error;
  mergeErrors_separator : string;
  ServerConfig : string -> string;
  IstioOperation : string;
  DenyAllPolicyOperation : string;
  StrictMTLSPolicyOperation : string;
  MutualMTLSPolicyOperation : string;
  DisableMTLSPolicyOperation : string;
  LabelNamespace : string;
  PrometheusAddon : string;
  GrafanaAddon : string;
  KialiAddon : string;
  JaegerAddon : string;
  ZipkinAddon : string;
  IstioVetOperation : string;
  EnvoyFilterOperation : string;
  ServicePatchFile : string;
  FilterPatchFile : string;
  BookInfoOperation : string;
  HTTPBinOperation : string;
  ImageHubOperation : string;
  EmojiVotoOperation : string;
  SmiConformanceOperation : string;
  CustomOperation : string;
  ServiceName : string;
  status_Deploying : string;
  status_Deployed : string;
  status_Running : string;
  status_Completed : string
}.

(** The answers of the outside world: the YAML decoder, the configuration
    provider holding the operation catalog, the cluster-facing methods, the
    records [RunVet] sends on its channel (and whether it closes the channel
    afterwards), and the OAM parsers. *)
Class World := {
  yaml_Unmarshal : string -> error + models.Kubeconfig;
  Config_GetObject_Operations : error + Operations;
  respond : Call -> string * option error;
  RunVet : list string -> list meshes.EventsResponse * bool;
  oam_ParseApplicationComponent : string -> error + any;
  oam_ParseApplicationConfiguration : string -> any * option error
}.

(** ** Goroutine bodies: a trace and an outcome *)

Inductive outcome (A : Type) : Type :=
| Done (a : A)
| Panic (msg : string)
| Blocked.
Arguments Done {A} a.
Arguments Panic {A} msg.
Arguments Blocked {A}.

Definition G (A : Type) : Type := list Action * outcome A.

Definition ret {A} (a : A) : G A := ([], Done a).

Definition bind {A B} (m : G A) (k : A -> G B) : G B :=
  match m with
  | (t, Done a) => let '(t', o) := k a in (t ++ t', o)
  | (t, Panic msg) => (t, Panic msg)
  | (t, Blocked) => (t, Blocked)
  end.

Definition perform (a : Action) : G unit := ([a], Done tt).
Definition panic {A} (msg : string) : G A := ([], Panic msg).
Definition block {A} : G A := ([], Blocked).

#[global] Instance G_ret : MRet G := @ret.
#[global] Instance G_bind : MBind G := fun A B k m => bind m k.

Definition trace {A} (m : G A) : list Action := m.1.
Definition result {A} (m : G A) : outcome A := m.2.

(** [for _, x := range xs { body x }] *)
Fixpoint forEach {A} (xs : list A) (body : A -> G unit) : G unit :=
  match xs with
  | [] => ret tt
  | x :: rest => body x;; forEach rest body
  end.

(** [utils.Contains(slice, ele)] of meshkit: a linear scan with [==]. *)
Definition utils_Contains (slice : list string) (ele : string) : bool :=
  existsb (fun item => String.eqb item ele) slice.

(** [p.field] through a pointer that may be nil. *)
Definition deref {A} (p : option A) : G A :=
  match p with
  | Some d => ret d
  | None => panic "invalid memory address or nil pointer dereference"
  end.

(** [s[i]] on a slice. *)
Definition index {A} (s : list A) (i : nat) : G A :=
  match nth_error s i with
  | Some x => ret x
  | None => panic "index out of range"
  end.

(** [m[k]] on a [map[string]string]: the zero value when [k] is absent. *)
Definition at_key (m : gmap string string) (k : string) : string :=
  default "" (m !! k).

(** ** The adapter *)

Section Istio.

Context {H : Type} `{!Handler H} `{!Decls} `{!World}.

Import models meshes adapter.

(** Modelled from the spec: [mergeErrors] is defined outside
    [istio/istio.go].  The spec describes its result as "a single
    aggregated failure (concatenation of all sub-errors)"; a separator
    between the messages, if any, is [mergeErrors_separator]. *)
Definition mergeErrors (errs : list error) : error :=
  errorString (strings.Join (map Error errs) mergeErrors_separator).

(** *** CreateKubeconfigs *)

(** One turn of the loop over the payloads: the store afterwards and the
    error appended to [errs], if the turn ended in [continue] after an
    error. *)
Definition ingest (h : H) (kubeconfig : string) : H * option error :=
  match yaml_Unmarshal kubeconfig with
  | inl err => (h, Some err)
  | inr kconfig =>
      let h := SetKey h "kind" (Kind kconfig) in
      let h := SetKey h "apiVersion" (APIVersion kconfig) in
      let h := SetKey h "current-context" (CurrentContext kconfig) in
      let '(h, err) := SetObject h "preferences" (Preferences kconfig) in
      match err with
      | Some err => (h, Some err)
      | None =>
      let '(h, err) := SetObject h "clusters" (Clusters kconfig) in
      match err with
      | Some err => (h, Some err)
      | None =>
      let '(h, err) := SetObject h "users" (Users kconfig) in
      match err with
      | Some err => (h, Some err)
      | None =>
      let '(h, err) := SetObject h "contexts" (Contexts kconfig) in
      match err with
      | Some err => (h, Some err)
      | None => (h, None)
      end end end end
  end.

Fixpoint CreateKubeconfigs_loop (h : H) (errs : list error)
    (kubeconfigs : list string) : H * list error :=
  match kubeconfigs with
  | [] => (h, errs)
  | kubeconfig :: rest =>
      let '(h, err) := ingest h kubeconfig in
      let errs := match err with
                  | Some err => errs ++ [err]
                  | None => errs
                  end in
      CreateKubeconfigs_loop h errs rest
  end.

Definition CreateKubeconfigs (h : H) (kubeconfigs : list string) : H * option error :=
  let '(h, errs) := CreateKubeconfigs_loop h [] kubeconfigs in
  if Nat.eqb (length errs) 0 then (h, None)
  else (h, Some (mergeErrors errs)).

(** *** ApplyOperation *)

(** A call of a cluster-facing method: recorded, answered by the world. *)
Definition call (c : Call) : G (string * option error) :=
  let r := respond c in ([Invoke c r.1 r.2], Done r).

(** The five assignments every handler makes before [StreamErr]. *)
Definition failed (summary : string) (err : error) (ee : EventsResponse) : EventsResponse :=
  set_SuggestedRemediation (GetRemedy err)
    (set_ProbableCause (GetCause err)
      (set_ErrorCode (GetCode err)
        (set_Details (Error err)
          (set_Summary summary ee)))).

(** The two assignments before [StreamInfo]. *)
Definition succeeded (summary details : string) (ee : EventsResponse) : EventsResponse :=
  set_Details details (set_Summary summary ee).

(** Which [case] of the [switch] on the operation name is taken. *)
Inductive Case : Type :=
| case_Istio | case_SampleApp | case_SmiConformance | case_Policy
| case_Custom | case_LabelNamespace | case_Addon | case_IstioVet
| case_EnvoyFilter | case_default.

Definition is_one_of (name : string) (names : list string) : bool :=
  existsb (String.eqb name) names.

Definition switch (name : string) : Case :=
  if String.eqb name IstioOperation then case_Istio
  else if is_one_of name [BookInfoOperation; HTTPBinOperation; ImageHubOperation; EmojiVotoOperation]
  then case_SampleApp
  else if String.eqb name SmiConformanceOperation then case_SmiConformance
  else if is_one_of name [DenyAllPolicyOperation; StrictMTLSPolicyOperation; MutualMTLSPolicyOperation; DisableMTLSPolicyOperation]
  then case_Policy
  else if String.eqb name CustomOperation then case_Custom
  else if String.eqb name LabelNamespace then case_LabelNamespace
  else if is_one_of name [PrometheusAddon; GrafanaAddon; KialiAddon; JaegerAddon; ZipkinAddon]
  then case_Addon
  else if String.eqb name IstioVetOperation then case_IstioVet
  else if String.eqb name EnvoyFilterOperation then case_EnvoyFilter
  else case_default.

Section Tasks.

Variables (operations : Operations) (opReq : OperationRequest)
          (kubeConfigs : list string) (requestedVersion : string).

Let descriptor : option Operation := operations !! OperationName opReq.

(** The version handed to [installIstio] for a non-empty version list. *)
Definition effectiveVersion (versions : list string) : G string :=
  version ← index versions (length versions - 1);
  if utils_Contains versions requestedVersion
  then mret requestedVersion
  else mret version.

Definition istioTask (ee : EventsResponse) : G unit :=
  d ← deref descriptor;
  '(stat, version, err) ←
    (if Nat.eqb (length (Versions d)) 0
     then mret ("", "", Some ErrFetchIstioVersions)
     else
       version ← effectiveVersion (Versions d);
       '(stat, err) ← call (installIstio (IsDeleteOperation opReq) false version
                              (Namespace opReq) "default" kubeConfigs);
       mret (stat, version, err));
  match err with
  | Some err =>
      perform (StreamErr
        (failed ("Error while " +:+ stat +:+ " Istio service mesh " +:+ version) err ee) err)
  | None =>
      perform (StreamInfo
        (succeeded ("Istio service mesh " +:+ version +:+ " " +:+ stat +:+ " successfully")
                   ("The Istio service mesh " +:+ version +:+ " is now " +:+ stat +:+ ".") ee))
  end.

Definition sampleAppTask (ee : EventsResponse) : G unit :=
  d ← deref descriptor;
  let appName := at_key (AdditionalProperties d) ServiceName in
  '(stat, err) ← call (installSampleApp (Namespace opReq) (IsDeleteOperation opReq)
                         (Templates d) kubeConfigs);
  match err with
  | Some err =>
      perform (StreamErr
        (failed ("Error while " +:+ stat +:+ " Istio service mesh") err ee) err)
  | None =>
      perform (StreamInfo
        (succeeded (appName +:+ " application " +:+ stat +:+ " successfully")
                   ("The " +:+ appName +:+ " application is now " +:+ stat +:+ ".") ee))
  end.

Definition smiConformanceTask (ee : EventsResponse) : G unit :=
  d ← deref descriptor;
  let name := Description d in
  manifest ← index (Templates d) 0;
  '(_, err) ← call (RunSMITest
                      {| smi_OperationID := OperationId ee;
                         smi_Labels := [("istio-injection", "enabled")];
                         smi_Namespace := "meshery";
                         smi_Manifest := manifest;
                         smi_Annotations := [] |});
  match err with
  | Some err =>
      perform (StreamErr
        (failed ("Error while " +:+ status_Running +:+ " " +:+ name +:+ " test") err ee) err)
  | None =>
      perform (StreamInfo
        (succeeded (name +:+ " test " +:+ status_Completed +:+ " successfully") "" ee))
  end.

Definition policyTask (ee : EventsResponse) : G unit :=
  d ← deref descriptor;
  '(stat, err) ← call (applyPolicy (Namespace opReq) (IsDeleteOperation opReq)
                         (Templates d) kubeConfigs);
  match err with
  | Some err =>
      perform (StreamErr (failed ("Error while " +:+ stat +:+ " policy") err ee) err)
  | None =>
      perform (StreamInfo
        (succeeded ("Policy " +:+ status_Deployed +:+ " successfully") "" ee))
  end.

Definition customTask (ee : EventsResponse) : G unit :=
  '(stat, err) ← call (applyCustomOperation (Namespace opReq) (CustomBody opReq)
                         (IsDeleteOperation opReq) kubeConfigs);
  match err with
  | Some err =>
      perform (StreamErr (failed ("Error while " +:+ stat +:+ " custom operation") err ee) err)
  | None =>
      perform (StreamInfo
        (succeeded ("Manifest " +:+ status_Deployed +:+ " successfully") "" ee))
  end.

Definition labelNamespaceTask (ee : EventsResponse) : G unit :=
  '(_, err) ← call (LoadNamespaceToMesh (Namespace opReq) (IsDeleteOperation opReq) kubeConfigs);
  let operation := if IsDeleteOperation opReq then "removed" else "enabled" in
  match err with
  | Some err =>
      perform (StreamErr (failed ("Error while labeling " +:+ Namespace opReq) err ee) err)
  | None =>
      perform (StreamInfo
        (succeeded ("Label updated on " +:+ Namespace opReq +:+ " namespace")
                   ("ISTIO-INJECTION label " +:+ operation +:+ " on " +:+ Namespace opReq +:+ " namespace") ee))
  end.

Definition addonTask (ee : EventsResponse) : G unit :=
  d ← deref descriptor;
  let svcname := at_key (AdditionalProperties d) ServiceName in
  let patches := [] ++ [at_key (AdditionalProperties d) ServicePatchFile] in
  '(_, err) ← call (installAddon (Namespace opReq) (IsDeleteOperation opReq) svcname
                      patches (Templates d) kubeConfigs);
  let operation := if IsDeleteOperation opReq then "uninstall" else "install" in
  match err with
  | Some err =>
      perform (StreamErr
        (failed ("Error while " +:+ operation +:+ "ing " +:+ OperationName opReq) err ee) err)
  | None =>
      perform (StreamInfo
        (succeeded ("Successfully " +:+ operation +:+ "ed " +:+ OperationName opReq)
                   ("Successfully " +:+ operation +:+ "ed " +:+ OperationName opReq
                      +:+ " from the " +:+ Namespace opReq +:+ " namespace") ee))
  end.

(** The body of the loop [for msg := range responseChan]. *)
Definition forward (msg : EventsResponse) : Action :=
  match EventType_ msg with
  | EventType_ERROR => StreamErr msg (ErrIstioVet (stderrors_New (Details msg)))
  | EventType_WARN => StreamWarn msg (ErrIstioVet (stderrors_New (Details msg)))
  | _ => StreamInfo msg
  end.

(** The consumer of the verification feed, run against a producer that
    sends [records] one after the other and then closes the channel or
    not.  The loop ends when the channel is closed and drained. *)
Definition istioVetTask (ee : EventsResponse) : G unit :=
  perform (Go_RunVet kubeConfigs);;
  let '(records, closes) := RunVet kubeConfigs in
  forEach records (fun msg => perform (forward msg));;
  if closes : bool then perform (Log_Info "Done") else block.

Definition envoyFilterTask (ee : EventsResponse) : G unit :=
  d ← deref descriptor;
  let appName := at_key (AdditionalProperties d) ServiceName in
  let patchFile := at_key (AdditionalProperties d) FilterPatchFile in
  '(stat, err) ← call (patchWithEnvoyFilter (Namespace opReq) (IsDeleteOperation opReq)
                         appName (Templates d) patchFile kubeConfigs);
  match err with
  | Some err =>
      perform (StreamErr
        (failed ("Error while " +:+ stat +:+ " " +:+ appName +:+ " application") err ee) err)
  | None =>
      perform (StreamInfo
        (succeeded (appName +:+ " application " +:+ stat +:+ " successfully")
                   ("The " +:+ appName +:+ " application is now " +:+ stat +:+ ".") ee))
  end.

End Tasks.

(** What a call of [ApplyOperation] leaves behind: the kubeconfig store,
    the returned error, what was streamed before it returned, and the
    goroutines it started. *)
Record Dispatch := {
  store : H;
  returned : option error;
  synchronous : list Action;
  launched : list (G unit)
}.

(** The record [e] built before the [switch]; the fields the literal
    leaves out hold their zero values. *)
Definition newEventsResponse (opReq : OperationRequest) : EventsResponse :=
  {| OperationId := OperationID opReq;
     Summary := status_Deploying;
     Details := "Operation is not supported";
     EventType_ := EventType_INFO;
     ErrorCode := ""; ProbableCause := ""; SuggestedRemediation := "";
     Component := ServerConfig "type";
     ComponentName := ServerConfig "name" |}.

Definition ApplyOperation (h : H) (opReq : OperationRequest) : Dispatch :=
  let '(h, err) := CreateKubeconfigs h (K8sConfigs opReq) in
  match err with
  | Some err => {| store := h; returned := Some err; synchronous := []; launched := [] |}
  | None =>
  let kubeConfigs := K8sConfigs opReq in
  let requestedVersion := Version opReq in
  match Config_GetObject_Operations with
  | inl err => {| store := h; returned := Some err; synchronous := []; launched := [] |}
  | inr operations =>
  let e := newEventsResponse opReq in
  let go (task : EventsResponse -> G unit) :=
    {| store := h; returned := None; synchronous := []; launched := [task e] |} in
  match switch (OperationName opReq) with
  | case_Istio => go (istioTask operations opReq kubeConfigs requestedVersion)
  | case_SampleApp => go (sampleAppTask operations opReq kubeConfigs)
  | case_SmiConformance => go (smiConformanceTask operations opReq)
  | case_Policy => go (policyTask operations opReq kubeConfigs)
  | case_Custom => go (customTask opReq kubeConfigs)
  | case_LabelNamespace => go (labelNamespaceTask opReq kubeConfigs)
  | case_Addon => go (addonTask operations opReq kubeConfigs)
  | case_IstioVet => go (istioVetTask kubeConfigs)
  | case_EnvoyFilter => go (envoyFilterTask operations opReq kubeConfigs)
  | case_default =>
      {| store := h; returned := None;
         synchronous := [StreamErr e ErrOpInvalid]; launched := [] |}
  end
  end
  end.

(** *** ProcessOAM *)

(** The string ["\n"]. *)
Definition newline : string := String (ascii_of_nat 10) EmptyString.

(** The loop over [oamReq.OamComps]: a component that does not parse is
    logged and skipped. *)
Fixpoint parseComponents (comps : list any) (oamComps : list string) : G (list any) :=
  match oamComps with
  | [] => mret comps
  | acomp :: rest =>
      match oam_ParseApplicationComponent acomp with
      | inl configErr =>
          perform (Log_Error ErrParseOAMComponent);;
          parseComponents comps rest
      | inr comp => parseComponents (comps ++ [comp]) rest
      end
  end.

Definition ProcessOAM (h : H) (oamReq : OAMRequest) : H * G (string * option error) :=
  let '(h, err) := CreateKubeconfigs h (OAM_K8sConfigs oamReq) in
  match err with
  | Some err => (h, mret ("", Some err))
  | None =>
  let kubeconfigs := OAM_K8sConfigs oamReq in
  (h,
   comps ← parseComponents [] (OamComps oamReq);
   let '(config, err) := oam_ParseApplicationConfiguration (OamConfig oamReq) in
   match err with
   | Some _ => perform (Log_Error ErrParseOAMConfig)
   | None => mret tt
   end;;
   if DeleteOp oamReq then
     '(msg2, appConfiguration) ←
        call (HandleApplicationConfiguration config (DeleteOp oamReq) kubeconfigs);
     match appConfiguration with
     | Some appConfiguration => mret (msg2, Some (ErrProcessOAM appConfiguration))
     | None =>
     '(msg1, componentsErr) ← call (HandleComponents comps (DeleteOp oamReq) kubeconfigs);
     match componentsErr with
     | Some componentsErr =>
         mret (msg1 +:+ newline +:+ msg2, Some (ErrProcessOAM componentsErr))
     | None => mret (msg1 +:+ newline +:+ msg2, None)
     end
     end
   else
     '(msg1, err) ← call (HandleComponents comps (DeleteOp oamReq) kubeconfigs);
     match err with
     | Some err => mret (msg1, Some (ErrProcessOAM err))
     | None =>
     '(msg2, err) ← call (HandleApplicationConfiguration config (DeleteOp oamReq) kubeconfigs);
     match err with
     | Some err => mret (msg1 +:+ newline +:+ msg2, Some (ErrProcessOAM err))
     | None => mret (msg1 +:+ newline +:+ msg2, None)
     end
     end)
  end.

(** *** The verification feed as two goroutines and a channel

    [responseChan := make(chan *meshes.EventsResponse, 1)] joins the
    producer [RunVet] and the consumer loop of the verification task.  The
    producer sends its records in order and closes the channel afterwards
    or not; a send waits while the buffer is full.  The consumer receives
    while the buffer holds a record, leaves the loop once the channel is
    closed and empty, and waits otherwise. *)

Record Feed := {
  unsent : list EventsResponse;
  closes : bool;
  closed : bool;
  buffer : list EventsResponse;
  streamed : list Action;
  finished : bool
}.

Definition capacity : nat := 1.

Definition start (producer : list EventsResponse * bool) : Feed :=
  {| unsent := producer.1; closes := producer.2; closed := false;
     buffer := []; streamed := []; finished := false |}.

Inductive Turn : Type := Producer | Consumer.

(** One move of the goroutine whose turn it is; [None] when it waits. *)
Definition step (who : Turn) (s : Feed) : option Feed :=
  match who with
  | Producer =>
      match unsent s with
      | msg :: rest =>
          if Nat.ltb (length (buffer s)) capacity
          then Some {| unsent := rest; closes := closes s; closed := closed s;
                       buffer := buffer s ++ [msg]; streamed := streamed s;
                       finished := finished s |}
          else None
      | [] =>
          if closes s && negb (closed s)
          then Some {| unsent := []; closes := closes s; closed := true;
                       buffer := buffer s; streamed := streamed s;
                       finished := finished s |}
          else None
      end
  | Consumer =>
      if finished s then None
      else match buffer s with
           | msg :: rest =>
               Some {| unsent := unsent s; closes := closes s; closed := closed s;
                       buffer := rest; streamed := streamed s ++ [forward msg];
                       finished := false |}
           | [] =>
               if closed s
               then Some {| unsent := unsent s; closes := closes s; closed := true;
                            buffer := []; streamed := streamed s ++ [Log_Info "Done"];
                            finished := true |}
               else None
           end
  end.

(** A run under a schedule; a goroutine scheduled while it waits does
    nothing. *)
Fixpoint run (schedule : list Turn) (s : Feed) : Feed :=
  match schedule with
  | [] => s
  | who :: rest => run rest (default s (step who s))
  end.

(** [n] rounds in which both goroutines get a turn. *)
Fixpoint rounds (n : nat) : list Turn :=
  match n with
  | O => []
  | S n => Producer :: Consumer :: rounds n
  end.

End Istio.

(** ** An instance: an in-memory store and a sample world *)

(** A [config.Handler] kept in memory.  It stores objects that are
    sequences or mappings and rejects a scalar. *)
Record MemStore := {
  keys : gmap string string;
  objects : gmap string any
}.

Definition MemStore_empty : MemStore := {| keys := ∅; objects := ∅ |}.

#[global] Instance MemStore_Handler : Handler MemStore := {
  SetKey h k v := {| keys := <[k := v]> (keys h); objects := objects h |};
  GetKey h k := default "" (keys h !! k);
  SetObject h k v :=
    match v with
    | AStr _ => (h, Some (meshkitError "11070" ("cannot store a scalar under " +:+ k)))
    | _ => ({| keys := keys h; objects := <[k := v]> (objects h) |}, None)
    end;
  GetObject h k := objects h !! k
}.

(** Sample values for the declarations of the neighbouring packages. *)
Definition sampleDecls : Decls := {|
  GetCode e := match e with meshkitError code _ => code | errorString _ => "" end;
  GetCause e := "";
  GetRemedy e := "";
  ErrFetchIstioVersions := meshkitError "1011" "Unable to fetch Istio versions";
  ErrOpInvalid := meshkitError "1014" "Invalid operation";
  ErrParseOAMComponent := meshkitError "1016" "error parsing the component";
  ErrParseOAMConfig := meshkitError "1017" "error parsing the configuration";
  ErrIstioVet e := meshkitError "1018" ("error while running Istio vet command: " +:+ Error e);
  ErrProcessOAM e := meshkitError "1019" ("error performing OAM operations: " +:+ Error e);
  mergeErrors_separator := String (ascii_of_nat 10) EmptyString;
  ServerConfig k := if String.eqb k "type" then "adapter"
                    else if String.eqb k "name" then "istio" else "";
  IstioOperation := "istio";
  DenyAllPolicyOperation := "deny-all-policy-operation";
  StrictMTLSPolicyOperation := "strict-mtls-policy-operation";
  MutualMTLSPolicyOperation := "mutual-mtls-policy-operation";
  DisableMTLSPolicyOperation := "disable-mtls-policy-operation";
  LabelNamespace := "label-namespace";
  PrometheusAddon := "prometheus-addon";
  GrafanaAddon := "grafana-addon";
  KialiAddon := "kiali-addon";
  JaegerAddon := "jaeger-addon";
  ZipkinAddon := "zipkin-addon";
  IstioVetOperation := "istio-vet";
  EnvoyFilterOperation := "envoy-filter-operation";
  ServicePatchFile := "service_patch_file";
  FilterPatchFile := "filter_patch_file";
  BookInfoOperation := "bookinfo";
  HTTPBinOperation := "httpbin";
  ImageHubOperation := "imagehub";
  EmojiVotoOperation := "emojivoto";
  SmiConformanceOperation := "smi_conformance";
  CustomOperation := "custom";
  ServiceName := "service_name";
  status_Deploying := "deploying";
  status_Deployed := "deployed";
  status_Running := "running";
  status_Completed := "completed"
|}.

(** Three kubeconfig payloads: one that decodes and merges, one that decodes
    but whose [clusters] entry is a scalar (the store rejects it), and one
    that is not YAML. *)
Definition goodPayload : string := "kind: Config # cluster a".
Definition halfPayload : string := "kind: Config # clusters: oops".
Definition badPayload : string := "{{{".

Definition goodKubeconfig : models.Kubeconfig := {|
  models.APIVersion := "v1";
  models.Kind := "Config";
  models.Clusters := ASeq [AMap [("name", AStr "a")]];
  models.Contexts := ASeq [AMap [("name", AStr "ctx-a")]];
  models.CurrentContext := "ctx-a";
  models.Preferences := AMap [];
  models.Users := ASeq [AMap [("name", AStr "admin")]]
|}.

Definition halfKubeconfig : models.Kubeconfig := {|
  models.APIVersion := "v1beta";
  models.Kind := "Config";
  models.Clusters := AStr "oops";
  models.Contexts := ASeq [AMap [("name", AStr "ctx-b")]];
  models.CurrentContext := "ctx-b";
  models.Preferences := AMap [];
  models.Users := ASeq []
|}.

Definition sampleUnmarshal (payload : string) : error + models.Kubeconfig :=
  if String.eqb payload goodPayload then inr goodKubeconfig
  else if String.eqb payload halfPayload then inr halfKubeconfig
  else inl (errorString ("yaml: cannot unmarshal " +:+ payload)).

Definition sampleDescriptor (versions templates : list string) : adapter.Operation := {|
  adapter.Description := "sample";
  adapter.Versions := versions;
  adapter.Templates := templates;
  adapter.AdditionalProperties := {[ "service_name" := "svc" ]}
|}.

(** A catalog with a versioned control-plane entry and a conformance test. *)
Definition sampleCatalog : Operations :=
  {[ "istio" := sampleDescriptor ["1.1"; "1.2"] [];
     "smi_conformance" := sampleDescriptor [] ["manifest.yaml"] ]}.

(** A catalog whose control-plane entry lists no version. *)
Definition versionlessCatalog : Operations :=
  {[ "istio" := sampleDescriptor [] [] ]}.

(** A world in which every call succeeds, and one in which every call
    fails. *)
Definition allSucceed (c : Call) : string * option error :=
  match c with
  | installIstio true _ _ _ _ _ => ("removed", None)
  | installIstio false _ _ _ _ _ => ("installed", None)
  | HandleComponents _ _ _ => ("components done", None)
  | HandleApplicationConfiguration _ _ _ => ("configuration done", None)
  | _ => ("deployed", None)
  end.

Definition allFail (c : Call) : string * option error :=
  match c with
  | HandleComponents _ _ _ => ("components failed", Some (errorString "no such cluster"))
  | HandleApplicationConfiguration _ _ _ =>
      ("configuration failed", Some (errorString "no such cluster"))
  | _ => ("installing", Some (meshkitError "1003" "no such cluster"))
  end.

Definition sampleRecord (type : meshes.EventType) (details : string) : meshes.EventsResponse := {|
  meshes.OperationId := "op-7";
  meshes.Summary := "vet";
  meshes.Details := details;
  meshes.EventType_ := type;
  meshes.ErrorCode := "";
  meshes.ProbableCause := "";
  meshes.SuggestedRemediation := "";
  meshes.Component := "adapter";
  meshes.ComponentName := "istio"
|}.

Definition sampleFeed : list meshes.EventsResponse :=
  [ sampleRecord meshes.EventType_INFO "scanning";
    sampleRecord meshes.EventType_WARN "missing sidecar";
    sampleRecord meshes.EventType_ERROR "port name mismatch";
    sampleRecord meshes.EventType_INFO "finished" ].

Definition sampleWorld (catalog : error + Operations)
    (answers : Call -> string * option error) : World := {|
  yaml_Unmarshal := sampleUnmarshal;
  Config_GetObject_Operations := catalog;
  respond := answers;
  RunVet _ := (sampleFeed, true);
  oam_ParseApplicationComponent raw :=
    if String.eqb raw "" then inl (errorString "unexpected end of JSON input")
    else inr (AStr raw);
  oam_ParseApplicationConfiguration raw :=
    if String.eqb raw "" then (AMap [], Some (errorString "unexpected end of JSON input"))
    else (AStr raw, None)
|}.

Definition sampleRequest (name version namespace : string) (kubeconfigs : list string)
    : adapter.OperationRequest := {|
  adapter.OperationName := name;
  adapter.Namespace := namespace;
  adapter.Username := "";
  adapter.CustomBody := "";
  adapter.IsDeleteOperation := false;
  adapter.OperationID := "op-1";
  adapter.K8sConfigs := kubeconfigs;
  adapter.Version := version
|}.

Definition sampleOAMRequest (del : bool) (comps : list string) (config : string)
    : adapter.OAMRequest := {|
  adapter.OAM_Username := "";
  adapter.DeleteOp := del;
  adapter.OamComps := comps;
  adapter.OamConfig := config;
  adapter.OAM_K8sConfigs := [goodPayload]
|}.

(** The dispatcher and the composite processor on the in-memory store. *)
Definition dispatch (catalog : error + Operations) (answers : Call -> string * option error)
    (opReq : adapter.OperationRequest) : Dispatch :=
  @ApplyOperation MemStore _ sampleDecls (sampleWorld catalog answers) MemStore_empty opReq.

Definition processOAM (answers : Call -> string * option error)
    (oamReq : adapter.OAMRequest) : MemStore * G (string * option error) :=
  @ProcessOAM MemStore _ sampleDecls (sampleWorld (inr sampleCatalog) answers) MemStore_empty oamReq.

(** The events a trace streams, and the calls it makes. *)
Definition is_stream (a : Action) : bool :=
  match a with
  | StreamErr _ _ | StreamWarn _ _ | StreamInfo _ => true
  | _ => false
  end.

Definition is_invoke (a : Action) : bool :=
  match a with
  | Invoke _ _ _ => true
  | _ => false
  end.

Definition streams (t : list Action) : list Action := filter (fun a => is_stream a = true) t.
Definition invocations (t : list Action) : list Action := filter (fun a => is_invoke a = true) t.

(** ** Observations on a run of the ingestion loop *)

Section Observations.

Context {H : Type} `{!Handler H} `{!Decls} `{!World}.

Definition parses (kubeconfig : string) : bool :=
  match yaml_Unmarshal kubeconfig with
  | inr _ => true
  | inl _ => false
  end.

(** The store after the turns for [kubeconfigs]. *)
Definition ingested (h : H) (kubeconfigs : list string) : H :=
  fold_left (fun h kubeconfig => (ingest h kubeconfig).1) kubeconfigs h.

(** The failures of the turns for [kubeconfigs], in payload order: the
    decoding error of a payload that does not parse, the store's error
    for a payload whose merge fails. *)
Fixpoint failures (h : H) (kubeconfigs : list string) : list error :=
  match kubeconfigs with
  | [] => []
  | kubeconfig :: rest =>
      match (ingest h kubeconfig).2 with
      | Some err => err :: failures (ingest h kubeconfig).1 rest
      | None => failures (ingest h kubeconfig).1 rest
      end
  end.

(** The four collections of a kubeconfig, in the order they are merged. *)
Definition collections (kconfig : models.Kubeconfig) : list (string * any) :=
  [ ("preferences", models.Preferences kconfig);
    ("clusters", models.Clusters kconfig);
    ("users", models.Users kconfig);
    ("contexts", models.Contexts kconfig) ].

(** The store after the three scalar keys of a kubeconfig are set. *)
Definition scalarsSet (h : H) (kconfig : models.Kubeconfig) : H :=
  SetKey (SetKey (SetKey h "kind" (models.Kind kconfig))
                 "apiVersion" (models.APIVersion kconfig))
         "current-context" (models.CurrentContext kconfig).

(** The collections the store accepts, one after the other, up to the
    first it rejects. *)
Fixpoint accepted (h : H) (cs : list (string * any)) : list (string * any) :=
  match cs with
  | [] => []
  | (c, v) :: rest =>
      match (SetObject h c v).2 with
      | None => (c, v) :: accepted (SetObject h c v).1 rest
      | Some _ => []
      end
  end.

(** The operation names that occur in a [case] of the [switch]. *)
Definition recognizedNames : list string :=
  [ IstioOperation;
    BookInfoOperation; HTTPBinOperation; ImageHubOperation; EmojiVotoOperation;
    SmiConformanceOperation;
    DenyAllPolicyOperation; StrictMTLSPolicyOperation; MutualMTLSPolicyOperation;
    DisableMTLSPolicyOperation;
    CustomOperation;
    LabelNamespace;
    PrometheusAddon; GrafanaAddon; KialiAddon; JaegerAddon; ZipkinAddon;
    IstioVetOperation;
    EnvoyFilterOperation ].

(** A handler failure reaches the caller as one error record that carries
    the failure's message and classification. *)
Definition reportsFailure (opReq : adapter.OperationRequest) (err : error)
    (t : list Action) : Prop :=
  exists ev,
    streams t = [StreamErr ev err]
    /\ meshes.OperationId ev = adapter.OperationID opReq
    /\ meshes.Details ev = Error err
    /\ meshes.ErrorCode ev = GetCode err
    /\ meshes.ProbableCause ev = GetCause err
    /\ meshes.SuggestedRemediation ev = GetRemedy err.

(** The components of a request that parse, in request order. *)
Definition parsedComponents (oamComps : list string) : list any :=
  omap (fun acomp => match oam_ParseApplicationComponent acomp with
                     | inr comp => Some comp
                     | inl _ => None
                     end) oamComps.

(** What [ProcessOAM] logs while it parses a request. *)
Definition parseLog (oamReq : adapter.OAMRequest) : list Action :=
  omap (fun acomp => match oam_ParseApplicationComponent acomp with
                     | inr _ => None
                     | inl _ => Some (Log_Error ErrParseOAMComponent)
                     end) (adapter.OamComps oamReq)
  ++ match (oam_ParseApplicationConfiguration (adapter.OamConfig oamReq)).2 with
     | Some _ => [Log_Error ErrParseOAMConfig]
     | None => []
     end.

(** The two phases of [ProcessOAM], as calls. *)
Definition componentsPhase (oamReq : adapter.OAMRequest) : Call :=
  HandleComponents (parsedComponents (adapter.OamComps oamReq))
    (adapter.DeleteOp oamReq) (adapter.OAM_K8sConfigs oamReq).

Definition configurationPhase (oamReq : adapter.OAMRequest) : Call :=
  HandleApplicationConfiguration
    (oam_ParseApplicationConfiguration (adapter.OamConfig oamReq)).1
    (adapter.DeleteOp oamReq) (adapter.OAM_K8sConfigs oamReq).

Definition isComponentsCall (a : Action) : bool :=
  match a with
  | Invoke (HandleComponents _ _ _) _ _ => true
  | _ => false
  end.

Definition isConfigurationCall (a : Action) : bool :=
  match a with
  | Invoke (HandleApplicationConfiguration _ _ _) _ _ => true
  | _ => false
  end.

(** In [t], every action of the first kind comes before every action of
    the second kind. *)
Definition allBefore (first second : Action -> bool) (t : list Action) : Prop :=
  forall i j a b,
    t !! i = Some a -> t !! j = Some b ->
    first a = true -> second b = true -> i < j.

(** What is still to be done in a feed: sends, receives, the close and
    the consumer's exit. *)
Definition remaining (s : Feed) : nat :=
  2 * length (unsent s) + length (buffer s)
  + (if closed s then 0 else 1) + (if finished s then 0 else 1).

(** The records of [records] a feed has delivered so far are those that
    are neither waiting in the buffer nor unsent; they have been streamed
    in order, followed by the log entry of the exit once the consumer has
    left its loop. *)
Definition inOrder (records : list meshes.EventsResponse) (s : Feed) : Prop :=
  exists received,
    records = received ++ buffer s ++ unsent s
    /\ streamed s = map forward received
                    ++ (if finished s then [Log_Info "Done"] else [])
    /\ (closed s = true -> unsent s = [])
    /\ (finished s = true -> closed s = true /\ buffer s = []).

End Observations.

(** ** What can go wrong with one payload *)

Section Turn_observations.

Context {H : Type} `{!Handler H} `{!World}.

(** The error of the first of the collections [cs] the store rejects when
    they are stored one after the other; none when it accepts them all. *)
Fixpoint rejection (h : H) (cs : list (string * any)) : option error :=
  match cs with
  | [] => None
  | (c, v) :: rest =>
      match (SetObject h c v).2 with
      | Some err => Some err
      | None => rejection (SetObject h c v).1 rest
      end
  end.

(** A payload fails on the store [h] when it does not decode, or when it
    decodes and the store, with the payload's scalars set, rejects one of
    its collections. *)
Definition turnFailure (h : H) (kubeconfig : string) : option error :=
  match yaml_Unmarshal kubeconfig with
  | inl err => Some err
  | inr kconfig => rejection (scalarsSet h kconfig) (collections kconfig)
  end.

End Turn_observations.

(** ** How a handler goroutine ends *)

(** The record a stream action carries. *)
Definition recordOf (a : Action) : option meshes.EventsResponse :=
  match a with
  | StreamErr e _ | StreamWarn e _ | StreamInfo e => Some e
  | _ => None
  end.

Section Outcomes.

Context `{!Decls}.

(** The ways a handler goroutine that was handed the record [ee] can end:
    stopped by a panic before it did anything, failed before its call,
    failed in its call, or succeeded. *)
Inductive Terminal (ee : meshes.EventsResponse) : G unit -> Prop :=
| Terminal_panic (msg : string) :
    Terminal ee ([], Panic msg)
| Terminal_refused (summary : string) (err : error) :
    Terminal ee ([StreamErr (failed summary err ee) err], Done tt)
| Terminal_failed (c : Call) (st summary : string) (err : error) :
    Terminal ee ([Invoke c st (Some err); StreamErr (failed summary err ee) err], Done tt)
| Terminal_succeeded (c : Call) (st summary details : string) :
    Terminal ee ([Invoke c st None; StreamInfo (succeeded summary details ee)], Done tt).

(** A record that differs from [ee] at most in its summary, details and
    error classification. *)
Definition sameOrigin (ee ev : meshes.EventsResponse) : Prop :=
  meshes.OperationId ev = meshes.OperationId ee
  /\ meshes.Component ev = meshes.Component ee
  /\ meshes.ComponentName ev = meshes.ComponentName ee
  /\ meshes.EventType_ ev = meshes.EventType_ ee.

End Outcomes.

(** ** The release-drafter script

    [scripts/update-release-drafter-org-wide.sh] rewrites the file
    [.github/release-drafter.yml] of every repository of the organization.
    A file is the list of its lines.  The commands that talk to GitHub and
    git are not modelled; the steps on the file's text, and the way the
    shell treats the counters under [set -e], are. *)

Module release_drafter.

(** [grep -q "^prefix"]: some line starts with [prefix]. *)
Definition grep_q_anchored (prefix : string) (file : list string) : bool :=
  existsb (String.prefix prefix) file.

(** [grep -q "text"]: some line contains [text]. *)
Definition grep_q (text : string) (file : list string) : bool :=
  existsb (fun line => strings.Contains line text) file.

(** [awk '/^tag-template:/ {print; print "no-duplicate-categories: true"; next} 1'] *)
Fixpoint awk_insert (file : list string) : list string :=
  match file with
  | [] => []
  | line :: rest =>
      if String.prefix "tag-template:" line
      then line :: "no-duplicate-categories: true" :: awk_insert rest
      else line :: awk_insert rest
  end.

(** The first [n] characters of a line removed. *)
Fixpoint dropChars (n : nat) (line : string) : string :=
  match n, line with
  | S n, String _ rest => dropChars n rest
  | _, _ => line
  end.

(** [sed 's/^prefix//'] on one line. *)
Definition sed_strip (prefix line : string) : string :=
  if String.prefix prefix line then dropChars (String.length prefix) line else line.

(** One turn of the loop [while IFS= read -r line]: what it prints. *)
Definition fixLine (line : string) : list string :=
  if String.prefix "  label: " line
  then ["  labels:"; "    - " +:+ sed_strip "  label: " line]
  else if String.prefix "    label: " line
  then ["    labels:"; "      - " +:+ sed_strip "    label: " line]
  else [line].

Definition fixLabels (file : list string) : list string :=
  flat_map fixLine file.

(** A line the loop rewrites. *)
Definition isLabelLine (line : string) : bool :=
  String.prefix "  label: " line || String.prefix "    label: " line.

(** The steps on the text of one repository's file, from the check for an
    earlier run to the rewritten file. *)
Inductive Verdict : Type :=
| Skipped_already_configured
| Error_no_tag_template
| Error_line_not_inserted
| Rewritten (file : list string).

Definition rewriteFile (file : list string) : Verdict :=
  if grep_q "no-duplicate-categories:" file then Skipped_already_configured
  else if negb (grep_q_anchored "tag-template:" file) then Error_no_tag_template
  else
    let inserted := awk_insert file in
    if negb (grep_q_anchored "no-duplicate-categories:" inserted)
    then Error_line_not_inserted
    else Rewritten (fixLabels inserted).

(** The counters of the script: shell integers, which are 64 bits wide
    and wrap around. *)
Record Counters := {
  processed : Z;
  updated : Z;
  skipped : Z;
  errors : Z
}.

Definition wrap64 (z : Z) : Z :=
  ((z + 2 ^ 63) mod 2 ^ 64 - 2 ^ 63)%Z.

(** [((var++))]: the new value of the variable and the status of the
    command, which is 1 when the value of the expression, the old value of
    the variable, is 0, and 0 otherwise. *)
Definition post_increment (var : Z) : Z * nat :=
  (wrap64 (var + 1), if Z.eqb var 0 then 1 else 0).

(** How the script ends: the status it exits with, the repositories it
    announced with "Processing:", and the counters. *)
Record Ending := {
  status : nat;
  announced : list string;
  counters : Counters
}.

Section Loop.

(** Whether the shell that runs the script lets [set -e] act on the
    arithmetic command [((...))].  The bash that [#!/bin/bash] names does
    so from version 4.1 on; older versions (3.2 among them) do not. *)
Variable arithmetic_errexit : bool.

(** What one turn of the loop does after [((processed++))], from the clone
    to the cleanup: the counters afterwards, or the status the shell exits
    with. *)
Variable remainder : Counters -> string -> Counters + nat.

(** The loop [while IFS= read -r repo] under [set -e]. *)
Fixpoint loop (c : Counters) (seen : list string) (repos : list string) : Ending :=
  match repos with
  | [] => {| status := 0; announced := seen; counters := c |}
  | repo :: rest =>
      let seen := seen ++ [repo] in
      let '(p, st) := post_increment (processed c) in
      let c := {| processed := p; updated := updated c;
                  skipped := skipped c; errors := errors c |} in
      if arithmetic_errexit && negb (Nat.eqb st 0)
      then {| status := st; announced := seen; counters := c |}
      else match remainder c repo with
           | inr st => {| status := st; announced := seen; counters := c |}
           | inl c => loop c seen rest
           end
  end.

(** The script from the listing of the repositories on. *)
Definition script (repos : list string) : Ending :=
  let zero := {| processed := 0; updated := 0; skipped := 0; errors := 0 |} in
  match repos with
  | [] => {| status := 1; announced := []; counters := zero |}
  | _ => loop zero [] repos
  end.

End Loop.

End release_drafter.

(** ** More sample values *)

(** A catalog whose conformance entry has no template. *)
Definition templatelessCatalog : Operations :=
  {[ "smi_conformance" := sampleDescriptor [] [] ]}.

(** The sample world with a [RunVet] that sends the sample feed and leaves
    the channel open. *)
Definition openFeedWorld : World := {|
  yaml_Unmarshal := sampleUnmarshal;
  Config_GetObject_Operations := inr sampleCatalog;
  respond := allSucceed;
  RunVet _ := (sampleFeed, false);
  oam_ParseApplicationComponent raw := inr (AStr raw);
  oam_ParseApplicationConfiguration raw := (AStr raw, None)
|}.

(** A release-drafter file with a tag template and a singular label. *)
Definition sampleDrafterFile : list string :=
  [ "name-template: 'Meshery Adapter v$NEXT_PATCH_VERSION'";
    "tag-template: 'v$NEXT_PATCH_VERSION'";
    "categories:";
    "  - title: 'Features'";
    "    label: 'kind/feature'" ].

(** * Properties *)

(** ** The scenarios of the specification, run on the sample world *)

(** No version requested, versions 1.1 and 1.2 listed: 1.2 is installed. *)
Example scenario_latest_version :
  launched (dispatch (inr sampleCatalog) allSucceed
              (sampleRequest "istio" "" "istio-system" [goodPayload]))
  = [ ([ Invoke (installIstio false false "1.2" "istio-system" "default" [goodPayload])
           "installed" None;
         StreamInfo
           {| meshes.OperationId := "op-1";
              meshes.Summary := "Istio service mesh 1.2 installed successfully";
              meshes.Details := "The Istio service mesh 1.2 is now installed.";
              meshes.EventType_ := meshes.EventType_INFO;
              meshes.ErrorCode := "";
              meshes.ProbableCause := "";
              meshes.SuggestedRemediation := "";
              meshes.Component := "adapter";
              meshes.ComponentName := "istio" |} ],
       Done tt) ].
Proof. vm_compute. reflexivity. Qed.

(** Version 1.1 requested and listed: 1.1 is installed. *)
Example scenario_requested_version :
  invocations (flat_map trace
    (launched (dispatch (inr sampleCatalog) allSucceed
                 (sampleRequest "istio" "1.1" "istio-system" [goodPayload]))))
  = [ Invoke (installIstio false false "1.1" "istio-system" "default" [goodPayload])
        "installed" None ].
Proof. vm_compute. reflexivity. Qed.

(** Version 0.9 requested but not listed: the last listed one is installed. *)
Example scenario_unlisted_version :
  invocations (flat_map trace
    (launched (dispatch (inr sampleCatalog) allSucceed
                 (sampleRequest "istio" "0.9" "istio-system" [goodPayload]))))
  = [ Invoke (installIstio false false "1.2" "istio-system" "default" [goodPayload])
        "installed" None ].
Proof. vm_compute. reflexivity. Qed.

(** Two payloads, the first not YAML: the store holds the second, and the
    returned error carries the decoding failure of the first. *)
Example scenario_malformed_then_wellformed :
  let r := @CreateKubeconfigs MemStore _ sampleDecls
             (sampleWorld (inr sampleCatalog) allSucceed)
             MemStore_empty [badPayload; goodPayload] in
  GetKey r.1 "current-context" = "ctx-a"
  /\ GetObject r.1 "clusters" = Some (ASeq [AMap [("name", AStr "a")]])
  /\ r.2 = Some (errorString "yaml: cannot unmarshal {{{").
Proof. vm_compute. repeat split. Qed.

(** A recognized operation without a catalog entry: the goroutine stops on
    the nil descriptor before it calls or streams anything. *)
Example scenario_missing_descriptor :
  launched (dispatch (inr sampleCatalog) allSucceed
              (sampleRequest "bookinfo" "" "default" [goodPayload]))
  = [ ([], Panic "invalid memory address or nil pointer dereference") ].
Proof. vm_compute. reflexivity. Qed.

(** A handler failure: one call, one error record, nil returned. *)
Example scenario_handler_failure :
  let r := dispatch (inr sampleCatalog) allFail
             (sampleRequest "label-namespace" "" "default" [goodPayload]) in
  returned r = None
  /\ launched r
     = [ ([ Invoke (LoadNamespaceToMesh "default" false [goodPayload]) "installing"
              (Some (meshkitError "1003" "no such cluster"));
            StreamErr
              {| meshes.OperationId := "op-1";
                 meshes.Summary := "Error while labeling default";
                 meshes.Details := "no such cluster";
                 meshes.EventType_ := meshes.EventType_INFO;
                 meshes.ErrorCode := "1003";
                 meshes.ProbableCause := "";
                 meshes.SuggestedRemediation := "";
                 meshes.Component := "adapter";
                 meshes.ComponentName := "istio" |}
              (meshkitError "1003" "no such cluster") ],
          Done tt) ].
Proof. vm_compute. repeat split. Qed.

(** A delete request whose configuration phase fails: the components phase
    does not run and the message is the configuration's. *)
Example scenario_delete_configuration_fails :
  (processOAM allFail (sampleOAMRequest true ["comp-a"] "config")).2
  = ([ Invoke (HandleApplicationConfiguration (AStr "config") true [goodPayload])
         "configuration failed" (Some (errorString "no such cluster")) ],
     Done ("configuration failed",
           Some (meshkitError "1019" "error performing OAM operations: no such cluster"))).
Proof. vm_compute. reflexivity. Qed.

(** ** Substrings *)

Module strings_facts.
Import strings.

Lemma append_nil_l (s : string) : "" +:+ s = s.
Proof. reflexivity. Qed.

Lemma append_cons (c : ascii) (a b : string) : String c a +:+ b = String c (a +:+ b).
Proof. reflexivity. Qed.

Lemma append_nil_r (s : string) : s +:+ "" = s.
Proof.
  induction s as [|c s IH]; [reflexivity |].
  now rewrite append_cons, IH.
Qed.

Lemma append_assoc (a b c : string) : (a +:+ b) +:+ c = a +:+ (b +:+ c).
Proof.
  induction a as [|x a IH]; [reflexivity |].
  now rewrite !append_cons, IH.
Qed.

Lemma prefix_app (sub s : string) :
  String.prefix sub s = true <-> exists post, s = sub +:+ post.
Proof.
  revert s; induction sub as [|c sub IH]; intros s.
  - split; [intros _; now exists s |]. now destruct s.
  - destruct s as [|d s].
    + split; [discriminate | intros [post Hp]; discriminate].
    + cbn [String.prefix]. destruct (Ascii.ascii_dec c d) as [->|Hne].
      * rewrite IH. split; intros [post Hp]; exists post.
        -- now rewrite append_cons, Hp.
        -- rewrite append_cons in Hp. congruence.
      * split; [discriminate | intros [post Hp]].
        rewrite append_cons in Hp. congruence.
Qed.

Lemma Infix_refl (s : string) : Infix s s.
Proof. exists "", "". now rewrite append_nil_l, append_nil_r. Qed.

Lemma Infix_app_l (sub a b : string) : Infix sub a -> Infix sub (a +:+ b).
Proof.
  intros (pre & post & ->). exists pre, (post +:+ b).
  now rewrite !append_assoc.
Qed.

Lemma Infix_app_r (sub a b : string) : Infix sub b -> Infix sub (a +:+ b).
Proof.
  intros (pre & post & ->). exists (a +:+ pre), post.
  now rewrite !append_assoc.
Qed.

Lemma Infix_prefix (sub s : string) : String.prefix sub s = true -> Infix sub s.
Proof. intros [post Hp]%prefix_app. exists "", post. exact Hp. Qed.

(** [strings.Contains] decides [Infix]. *)
Lemma Contains_Infix (s sub : string) : Contains s sub = true <-> Infix sub s.
Proof.
  induction s as [|c s IH]; cbn [Contains].
  - destruct (String.prefix sub "") eqn:Hp.
    + split; [intros _ | reflexivity]. now apply Infix_prefix.
    + split; [discriminate |].
      intros (pre & post & Hs). exfalso.
      destruct pre as [|d pre]; [| rewrite append_cons in Hs; discriminate].
      rewrite append_nil_l in Hs.
      assert (String.prefix sub "" = true) by (apply prefix_app; eauto).
      congruence.
  - destruct (String.prefix sub (String c s)) eqn:Hp.
    + split; [intros _ | reflexivity]. now apply Infix_prefix.
    + rewrite IH. split.
      * intros (pre & post & ->). exists (String c pre), post.
        now rewrite append_cons.
      * intros (pre & post & Hs). destruct pre as [|d pre].
        -- rewrite append_nil_l in Hs.
           assert (String.prefix sub (String c s) = true) by (apply prefix_app; eauto).
           congruence.
        -- rewrite append_cons in Hs. injection Hs as _ ->. now exists pre, post.
Qed.

(** Every element of a joined list occurs in the result. *)
Lemma Join_Infix (elems : list string) (sep x : string) :
  In x elems -> Infix x (Join elems sep).
Proof.
  induction elems as [|y rest IH]; [intros [] |].
  intros [-> | Hin].
  - destruct rest as [|z rest]; [apply Infix_refl |].
    change (Infix x (x +:+ sep +:+ Join (z :: rest) sep)).
    apply Infix_app_l, Infix_refl.
  - destruct rest as [|z rest]; [destruct Hin |].
    change (Infix x (y +:+ sep +:+ Join (z :: rest) sep)).
    apply Infix_app_r, Infix_app_r, IH, Hin.
Qed.

End strings_facts.

(** ** Kubeconfig ingestion *)

Section CreateKubeconfigs_facts.

Context {H : Type} `{!Handler H} `{!Decls} `{!World}.

Lemma ingest_unparsed (h : H) (kubeconfig : string) (err : error) :
  yaml_Unmarshal kubeconfig = inl err -> ingest h kubeconfig = (h, Some err).
Proof. intros Hp. unfold ingest. now rewrite Hp. Qed.

(** The loop threads the store through the turns and appends the turns'
    failures to [errs]. *)
Lemma CreateKubeconfigs_loop_spec (kubeconfigs : list string) :
  forall (h : H) (errs : list error),
    CreateKubeconfigs_loop h errs kubeconfigs
    = (ingested h kubeconfigs, errs ++ failures h kubeconfigs).
Proof.
  induction kubeconfigs as [|k rest IH]; intros h errs; cbn [CreateKubeconfigs_loop].
  - now rewrite app_nil_r.
  - destruct (ingest h k) as [h' [err|]] eqn:Hk.
    + rewrite IH. unfold ingested. cbn [fold_left failures]. rewrite Hk. cbn [fst snd].
      now rewrite <- app_assoc.
    + rewrite IH. unfold ingested. cbn [fold_left failures]. now rewrite Hk.
Qed.

Lemma CreateKubeconfigs_spec (h : H) (kubeconfigs : list string) :
  CreateKubeconfigs h kubeconfigs
  = (ingested h kubeconfigs,
     match failures h kubeconfigs with
     | [] => None
     | errs => Some (mergeErrors errs)
     end).
Proof.
  unfold CreateKubeconfigs. rewrite CreateKubeconfigs_loop_spec. cbn [app].
  now destruct (failures h kubeconfigs).
Qed.

(** A payload that does not parse leaves the store as it is. *)
Lemma ingested_parsed_only (kubeconfigs : list string) :
  forall h : H,
    ingested h kubeconfigs
    = ingested h (filter (fun k => parses k = true) kubeconfigs).
Proof.
  induction kubeconfigs as [|k rest IH]; intros h; [reflexivity |].
  rewrite filter_cons. destruct (decide (parses k = true)) as [Hp|Hp].
  - unfold ingested. cbn [fold_left]. apply IH.
  - unfold parses in Hp. destruct (yaml_Unmarshal k) as [err|kconfig] eqn:Hk; [| congruence].
    unfold ingested at 1. cbn [fold_left].
    rewrite (ingest_unparsed h k err Hk). apply IH.
Qed.

Lemma failures_unparsed (kubeconfigs : list string) (k : string) (err : error) :
  In k kubeconfigs -> yaml_Unmarshal k = inl err ->
  forall h : H, In err (failures h kubeconfigs).
Proof.
  intros Hin Hk. induction kubeconfigs as [|k' rest IH]; [destruct Hin |].
  intros h. cbn [failures]. destruct Hin as [-> | Hin].
  - rewrite (ingest_unparsed h k err Hk). now left.
  - destruct (ingest h k').2; [right |]; now apply IH.
Qed.

End CreateKubeconfigs_facts.

Section Partial_merge.

Context {H : Type} `{!Handler H} `{!LawfulHandler H} `{!Decls} `{!World}.

Import models.

Lemma GetKey_after_SetObject (h h' : H) (k k' : string) (v : any) (e : option error) :
  SetObject h k v = (h', e) -> k <> k' -> GetKey h' k' = GetKey h k'.
Proof.
  intros Hs Hne. replace h' with (SetObject h k v).1 by now rewrite Hs.
  now apply GetKey_SetObject_ne.
Qed.

Lemma GetObject_after_SetObject_ne (h h' : H) (k k' : string) (v : any) (e : option error) :
  SetObject h k v = (h', e) -> k <> k' -> GetObject h' k' = GetObject h k'.
Proof.
  intros Hs Hne. replace h' with (SetObject h k v).1 by now rewrite Hs.
  now apply GetObject_SetObject_ne.
Qed.

Lemma GetObject_after_SetObject_eq (h h' : H) (k : string) (v : any) :
  SetObject h k v = (h', None) -> GetObject h' k = Some v.
Proof.
  intros Hs. replace h' with (SetObject h k v).1 by now rewrite Hs.
  apply GetObject_SetObject_eq. now rewrite Hs.
Qed.

Lemma scalarsSet_kind (h : H) (kconfig : Kubeconfig) :
  GetKey (scalarsSet h kconfig) "kind" = Kind kconfig.
Proof.
  unfold scalarsSet.
  rewrite GetKey_SetKey_ne by discriminate.
  rewrite GetKey_SetKey_ne by discriminate.
  apply GetKey_SetKey_eq.
Qed.

Lemma scalarsSet_apiVersion (h : H) (kconfig : Kubeconfig) :
  GetKey (scalarsSet h kconfig) "apiVersion" = APIVersion kconfig.
Proof.
  unfold scalarsSet.
  rewrite GetKey_SetKey_ne by discriminate.
  apply GetKey_SetKey_eq.
Qed.

Lemma scalarsSet_current_context (h : H) (kconfig : Kubeconfig) :
  GetKey (scalarsSet h kconfig) "current-context" = CurrentContext kconfig.
Proof. unfold scalarsSet. apply GetKey_SetKey_eq. Qed.

(** C10.  When a payload parses and one of its collections is rejected by
    the store, the turn still leaves the three scalar keys set to the
    payload's values and every collection accepted before the rejected
    one stored (nothing is undone), records the store's error, and the
    loop goes on with the next payload from that store. *)
Theorem ingest_keeps_partial_merge
    (h : H) (kubeconfig : string) (kconfig : Kubeconfig)
    (err : error) (errs : list error) (rest : list string) :
  yaml_Unmarshal kubeconfig = inr kconfig ->
  (ingest h kubeconfig).2 = Some err ->
  let h' := (ingest h kubeconfig).1 in
  let kept := accepted (scalarsSet h kconfig) (collections kconfig) in
  GetKey h' "kind" = Kind kconfig
  /\ GetKey h' "apiVersion" = APIVersion kconfig
  /\ GetKey h' "current-context" = CurrentContext kconfig
  /\ length kept < length (collections kconfig)
  /\ Forall (fun cv => GetObject h' cv.1 = Some cv.2) kept
  /\ CreateKubeconfigs_loop h errs (kubeconfig :: rest)
     = CreateKubeconfigs_loop h' (errs ++ [err]) rest.
Proof.
  intros Hparse Herr h' kept. subst h' kept.
  cbn [CreateKubeconfigs_loop].
  destruct (ingest h kubeconfig) as [h' oe] eqn:Hing. cbn [fst snd] in *. subst oe.
  unfold ingest in Hing. rewrite Hparse in Hing.
  fold (scalarsSet h kconfig) in Hing.
  pose proof (scalarsSet_kind h kconfig) as Hk.
  pose proof (scalarsSet_apiVersion h kconfig) as Ha.
  pose proof (scalarsSet_current_context h kconfig) as Hc.
  set (h0 := scalarsSet h kconfig) in *.
  unfold collections. cbn [accepted length].
  destruct (SetObject h0 "preferences" (Preferences kconfig)) as [h1 [e1|]] eqn:E1;
    cbn [fst snd].
  { injection Hing as <- <-.
    rewrite !(GetKey_after_SetObject _ _ _ _ _ _ E1) by discriminate.
    repeat split; auto; try (cbn; lia). }
  destruct (SetObject h1 "clusters" (Clusters kconfig)) as [h2 [e2|]] eqn:E2;
    cbn [fst snd].
  { injection Hing as <- <-.
    rewrite !(GetKey_after_SetObject _ _ _ _ _ _ E2) by discriminate.
    rewrite !(GetKey_after_SetObject _ _ _ _ _ _ E1) by discriminate.
    repeat split; auto; try (cbn; lia).
    repeat constructor; cbn [fst snd].
    rewrite (GetObject_after_SetObject_ne _ _ _ _ _ _ E2) by discriminate.
    exact (GetObject_after_SetObject_eq _ _ _ _ E1). }
  destruct (SetObject h2 "users" (Users kconfig)) as [h3 [e3|]] eqn:E3;
    cbn [fst snd].
  { injection Hing as <- <-.
    rewrite !(GetKey_after_SetObject _ _ _ _ _ _ E3) by discriminate.
    rewrite !(GetKey_after_SetObject _ _ _ _ _ _ E2) by discriminate.
    rewrite !(GetKey_after_SetObject _ _ _ _ _ _ E1) by discriminate.
    repeat split; auto; try (cbn; lia).
    repeat constructor; cbn [fst snd].
    - rewrite (GetObject_after_SetObject_ne _ _ _ _ _ _ E3) by discriminate.
      rewrite (GetObject_after_SetObject_ne _ _ _ _ _ _ E2) by discriminate.
      exact (GetObject_after_SetObject_eq _ _ _ _ E1).
    - rewrite (GetObject_after_SetObject_ne _ _ _ _ _ _ E3) by discriminate.
      exact (GetObject_after_SetObject_eq _ _ _ _ E2). }
  destruct (SetObject h3 "contexts" (Contexts kconfig)) as [h4 [e4|]] eqn:E4;
    cbn [fst snd]; [| discriminate Hing].
  injection Hing as <- <-.
  rewrite !(GetKey_after_SetObject _ _ _ _ _ _ E4) by discriminate.
  rewrite !(GetKey_after_SetObject _ _ _ _ _ _ E3) by discriminate.
  rewrite !(GetKey_after_SetObject _ _ _ _ _ _ E2) by discriminate.
  rewrite !(GetKey_after_SetObject _ _ _ _ _ _ E1) by discriminate.
  repeat split; auto; try (cbn; lia).
  repeat constructor; cbn [fst snd].
  - rewrite (GetObject_after_SetObject_ne _ _ _ _ _ _ E4) by discriminate.
    rewrite (GetObject_after_SetObject_ne _ _ _ _ _ _ E3) by discriminate.
    rewrite (GetObject_after_SetObject_ne _ _ _ _ _ _ E2) by discriminate.
    exact (GetObject_after_SetObject_eq _ _ _ _ E1).
  - rewrite (GetObject_after_SetObject_ne _ _ _ _ _ _ E4) by discriminate.
    rewrite (GetObject_after_SetObject_ne _ _ _ _ _ _ E3) by discriminate.
    exact (GetObject_after_SetObject_eq _ _ _ _ E2).
  - rewrite (GetObject_after_SetObject_ne _ _ _ _ _ _ E4) by discriminate.
    exact (GetObject_after_SetObject_eq _ _ _ _ E3).
Qed.

End Partial_merge.

Section Aggregation.

Context {H : Type} `{!Handler H} `{!Decls} `{!World}.

Lemma mergeErrors_keeps_message (errs : list error) (err : error) :
  In err errs -> strings.Infix (Error err) (Error (mergeErrors errs)).
Proof.
  intros Hin. unfold mergeErrors. cbn [Error].
  apply strings_facts.Join_Infix. now apply in_map.
Qed.

End Aggregation.

(** The in-memory store is a key-value store. *)
#[global] Instance MemStore_Lawful : LawfulHandler MemStore.
Proof.
  split.
  - intros h k v. cbn. now rewrite lookup_insert_eq.
  - intros h k k' v Hne. cbn. now rewrite lookup_insert_ne.
  - intros h k k' v Hne. reflexivity.
  - intros h k k' v Hne. cbn. now destruct v.
  - intros h k v. cbn. destruct v; cbn; try discriminate; intros _; now rewrite lookup_insert_eq.
  - intros h k k' v Hne. cbn. destruct v; cbn; try reflexivity; now rewrite lookup_insert_ne.
Qed.

(** [C10] on the payload whose clusters entry the store rejects. *)
Lemma ingest_keeps_partial_merge_witness :
  let w := sampleWorld (inr sampleCatalog) allSucceed in
  let h' := (@ingest MemStore _ w MemStore_empty halfPayload).1 in
  GetKey h' "kind" = "Config"
  /\ GetKey h' "apiVersion" = "v1beta"
  /\ GetKey h' "current-context" = "ctx-b"
  /\ length (accepted (scalarsSet MemStore_empty halfKubeconfig) (collections halfKubeconfig)) < 4
  /\ Forall (fun cv => GetObject h' cv.1 = Some cv.2)
       (accepted (scalarsSet MemStore_empty halfKubeconfig) (collections halfKubeconfig))
  /\ @CreateKubeconfigs_loop MemStore _ w MemStore_empty [] [halfPayload; goodPayload]
     = @CreateKubeconfigs_loop MemStore _ w h'
         ([] ++ [meshkitError "11070" "cannot store a scalar under clusters"]) [goodPayload].
Proof.
  exact (@ingest_keeps_partial_merge MemStore _ MemStore_Lawful
           (sampleWorld (inr sampleCatalog) allSucceed)
           MemStore_empty halfPayload halfKubeconfig
           (meshkitError "11070" "cannot store a scalar under clusters") [] [goodPayload]
           eq_refl eq_refl).
Defined.

(** ** Dispatch *)

Section ApplyOperation_facts.

Context {H : Type} `{!Handler H} `{!Decls} `{!World}.

Import meshes adapter.

Lemma utils_Contains_In (slice : list string) (ele : string) :
  utils_Contains slice ele = true <-> In ele slice.
Proof.
  unfold utils_Contains. rewrite existsb_exists. split.
  - intros (x & Hin & Hx). apply String.eqb_eq in Hx. now subst.
  - intros Hin. exists ele. split; [assumption | apply String.eqb_refl].
Qed.

Lemma index_last {A} (s : list A) (d : A) :
  s <> [] -> index s (length s - 1) = mret (List.last s d).
Proof.
  intros Hne. unfold index.
  induction s as [|x [|y rest] IH]; [congruence | reflexivity |].
  specialize (IH ltac:(discriminate)).
  replace (length (x :: y :: rest) - 1) with (S (length (y :: rest) - 1))
    by (cbn [length]; lia).
  cbn [nth_error]. change (List.last (x :: y :: rest) d) with (List.last (y :: rest) d).
  exact IH.
Qed.

Lemma effectiveVersion_spec (requestedVersion : string) (versions : list string) :
  versions <> [] ->
  effectiveVersion requestedVersion versions
  = mret (if utils_Contains versions requestedVersion then requestedVersion
          else List.last versions "").
Proof.
  intros Hne. unfold effectiveVersion. rewrite (index_last versions "" Hne).
  cbn. now destruct (utils_Contains versions requestedVersion).
Qed.

Lemma switch_IstioOperation : switch IstioOperation = case_Istio.
Proof. unfold switch. now rewrite String.eqb_refl. Qed.

Lemma switch_default (name : string) :
  switch name = case_default <-> ~ In name recognizedNames.
Proof.
  unfold switch, is_one_of, recognizedNames. cbn [existsb In].
  repeat match goal with
  | |- context [String.eqb name ?c] =>
      destruct (String.eqb_spec name c) as [->|?]; cbn [orb];
      [split; [discriminate | intros Hn; exfalso; apply Hn;
                              repeat ((left; reflexivity) || right)] |]
  end.
  split; [intros _ Hin | reflexivity].
  repeat (destruct Hin as [Heq | Hin]; [congruence |]). exact Hin.
Qed.

End ApplyOperation_facts.

Section Task_facts.

Context {H : Type} `{!Handler H} `{!Decls} `{!World}.

Import meshes adapter.

Variables (operations : Operations) (opReq : OperationRequest)
          (kubeConfigs : list string) (requestedVersion : string)
          (ee : EventsResponse).

Hypothesis ee_id : OperationId ee = OperationID opReq.

Ltac go_simpl :=
  cbn [mbind mret G_bind G_ret bind ret perform call deref index panic block
       trace result fst snd app forEach nth_error].

Lemma failed_reports (summary : string) (err : error) (before : list Action) :
  streams before = [] ->
  reportsFailure opReq err (before ++ [StreamErr (failed summary err ee) err]).
Proof.
  intros Hb. exists (failed summary err ee). unfold streams in *.
  rewrite filter_app, Hb. repeat split; try reflexivity. exact ee_id.
Qed.

(** The common shape of the handlers: after a call that failed with
    [err], the trace ends in the error record for [err]. *)
Ltac after_call :=
  match goal with
  | |- context [respond ?c] =>
      let st := fresh "st" in
      let e := fresh "e" in
      let R := fresh "R" in
      destruct (respond c) as [st [e|]] eqn:R; go_simpl;
      (intros [Heq | [Heq | []]]; [| discriminate Heq]);
      [ injection Heq as <- <- <-;
        match goal with
        | |- reportsFailure _ _ (?i :: ?rest) =>
            apply (failed_reports _ _ [i]); reflexivity
        end
      | discriminate Heq ]
  end.

Lemma istioTask_reports c st err :
  In (Invoke c st (Some err))
     (trace (istioTask operations opReq kubeConfigs requestedVersion ee)) ->
  reportsFailure opReq err
     (trace (istioTask operations opReq kubeConfigs requestedVersion ee)).
Proof.
  unfold istioTask.
  destruct (operations !! OperationName opReq) as [d|]; go_simpl; [| intros []].
  destruct (Versions d) as [|v vs] eqn:Hv; cbn [length Nat.eqb]; go_simpl.
  - intros [Heq | []]. discriminate Heq.
  - rewrite effectiveVersion_spec by discriminate. go_simpl. after_call.
Qed.

Lemma sampleAppTask_reports c st err :
  In (Invoke c st (Some err)) (trace (sampleAppTask operations opReq kubeConfigs ee)) ->
  reportsFailure opReq err (trace (sampleAppTask operations opReq kubeConfigs ee)).
Proof.
  unfold sampleAppTask.
  destruct (operations !! OperationName opReq) as [d|]; go_simpl; [| intros []].
  after_call.
Qed.

Lemma smiConformanceTask_reports c st err :
  In (Invoke c st (Some err)) (trace (smiConformanceTask operations opReq ee)) ->
  reportsFailure opReq err (trace (smiConformanceTask operations opReq ee)).
Proof.
  unfold smiConformanceTask.
  destruct (operations !! OperationName opReq) as [d|]; go_simpl; [| intros []].
  destruct (Templates d) as [|manifest ts]; go_simpl; [intros [] |].
  after_call.
Qed.

Lemma policyTask_reports c st err :
  In (Invoke c st (Some err)) (trace (policyTask operations opReq kubeConfigs ee)) ->
  reportsFailure opReq err (trace (policyTask operations opReq kubeConfigs ee)).
Proof.
  unfold policyTask.
  destruct (operations !! OperationName opReq) as [d|]; go_simpl; [| intros []].
  after_call.
Qed.

Lemma customTask_reports c st err :
  In (Invoke c st (Some err)) (trace (customTask opReq kubeConfigs ee)) ->
  reportsFailure opReq err (trace (customTask opReq kubeConfigs ee)).
Proof. unfold customTask. go_simpl. after_call. Qed.

Lemma labelNamespaceTask_reports c st err :
  In (Invoke c st (Some err)) (trace (labelNamespaceTask opReq kubeConfigs ee)) ->
  reportsFailure opReq err (trace (labelNamespaceTask opReq kubeConfigs ee)).
Proof. unfold labelNamespaceTask. go_simpl. after_call. Qed.

Lemma addonTask_reports c st err :
  In (Invoke c st (Some err)) (trace (addonTask operations opReq kubeConfigs ee)) ->
  reportsFailure opReq err (trace (addonTask operations opReq kubeConfigs ee)).
Proof.
  unfold addonTask.
  destruct (operations !! OperationName opReq) as [d|]; go_simpl; [| intros []].
  after_call.
Qed.

Lemma envoyFilterTask_reports c st err :
  In (Invoke c st (Some err)) (trace (envoyFilterTask operations opReq kubeConfigs ee)) ->
  reportsFailure opReq err (trace (envoyFilterTask operations opReq kubeConfigs ee)).
Proof.
  unfold envoyFilterTask.
  destruct (operations !! OperationName opReq) as [d|]; go_simpl; [| intros []].
  after_call.
Qed.

(** The loop over the records of the feed streams them one by one. *)
Lemma forEach_forward (records : list EventsResponse) :
  forEach records (fun msg => perform (forward msg)) = (map forward records, Done tt).
Proof.
  induction records as [|msg rest IH]; [reflexivity |].
  cbn [forEach map]. rewrite IH. reflexivity.
Qed.

Lemma forward_is_stream (msg : EventsResponse) : is_stream (forward msg) = true.
Proof. unfold forward. now destruct (EventType_ msg). Qed.

Lemma istioVetTask_trace :
  trace (istioVetTask kubeConfigs ee)
  = Go_RunVet kubeConfigs :: map forward (RunVet kubeConfigs).1
    ++ (if (RunVet kubeConfigs).2 then [Log_Info "Done"] else []).
Proof.
  unfold istioVetTask. destruct (RunVet kubeConfigs) as [records closes].
  go_simpl. rewrite forEach_forward. now destruct closes; go_simpl.
Qed.

Lemma istioVetTask_reports c st err :
  In (Invoke c st (Some err)) (trace (istioVetTask kubeConfigs ee)) ->
  reportsFailure opReq err (trace (istioVetTask kubeConfigs ee)).
Proof.
  rewrite istioVetTask_trace. intros [Heq | Hin]; [discriminate Heq |].
  exfalso. apply in_app_or in Hin as [Hin | Hin].
  - apply in_map_iff in Hin as (msg & Hm & _).
    pose proof (forward_is_stream msg) as Hs. now rewrite Hm in Hs.
  - destruct (RunVet kubeConfigs).2; [destruct Hin as [Heq | []]; discriminate Heq | destruct Hin].
Qed.

End Task_facts.

Section Dispatch_facts.

Context {H : Type} `{!Handler H} `{!Decls} `{!World}.

Import meshes adapter.

Ltac go_simpl :=
  cbn [mbind mret G_bind G_ret bind ret perform call deref index panic block
       trace result fst snd app forEach nth_error].

Lemma newEventsResponse_id (opReq : OperationRequest) :
  OperationId (newEventsResponse opReq) = OperationID opReq.
Proof. reflexivity. Qed.

Lemma switch_recognized (name : string) :
  In name recognizedNames -> switch name <> case_default.
Proof. intros Hin Hd. now apply switch_default in Hd. Qed.

(** A request that passes the two checks and names a recognized operation
    starts one goroutine, streams nothing itself and returns nil; a
    handler failure inside the goroutine becomes its error record. *)
Lemma ApplyOperation_recognized (h : H) (opReq : OperationRequest) (operations : Operations) :
  (CreateKubeconfigs h (K8sConfigs opReq)).2 = None ->
  Config_GetObject_Operations = inr operations ->
  switch (OperationName opReq) <> case_default ->
  returned (ApplyOperation h opReq) = None
  /\ synchronous (ApplyOperation h opReq) = []
  /\ exists task,
       launched (ApplyOperation h opReq) = [task]
       /\ forall c st err,
            In (Invoke c st (Some err)) (trace task) ->
            reportsFailure opReq err (trace task).
Proof.
  intros Hk Hc Hs. unfold ApplyOperation.
  destruct (CreateKubeconfigs h (K8sConfigs opReq)) as [h' oe]. cbn [snd] in Hk. subst oe.
  rewrite Hc.
  pose proof (newEventsResponse_id opReq) as Hid.
  destruct (switch (OperationName opReq)); try congruence;
    cbn [returned synchronous launched]; (split; [reflexivity |]); (split; [reflexivity |]);
    eexists; (split; [reflexivity |]); intros c st err.
  - now apply istioTask_reports.
  - now apply sampleAppTask_reports.
  - now apply smiConformanceTask_reports.
  - now apply policyTask_reports.
  - now apply customTask_reports.
  - now apply labelNamespaceTask_reports.
  - now apply addonTask_reports.
  - now apply istioVetTask_reports.
  - now apply envoyFilterTask_reports.
Qed.

(** C2.  [ApplyOperation] returns an error only for a failure found
    before dispatch: a kubeconfig ingestion error or a failure to read the
    operation catalog is returned as it is, with nothing streamed and no
    goroutine started.  For a recognized operation that passes both
    checks it returns nil, streams nothing itself and starts one
    goroutine; when a handler call inside that goroutine fails, the
    goroutine streams exactly one record, the error record of that
    failure. *)
Theorem ApplyOperation_returns_only_dispatch_failures (h : H) (opReq : OperationRequest) :
  (forall err,
      (CreateKubeconfigs h (K8sConfigs opReq)).2 = Some err ->
      returned (ApplyOperation h opReq) = Some err
      /\ launched (ApplyOperation h opReq) = []
      /\ synchronous (ApplyOperation h opReq) = [])
  /\ (forall err,
      (CreateKubeconfigs h (K8sConfigs opReq)).2 = None ->
      Config_GetObject_Operations = inl err ->
      returned (ApplyOperation h opReq) = Some err
      /\ launched (ApplyOperation h opReq) = []
      /\ synchronous (ApplyOperation h opReq) = [])
  /\ (forall operations,
      (CreateKubeconfigs h (K8sConfigs opReq)).2 = None ->
      Config_GetObject_Operations = inr operations ->
      In (OperationName opReq) recognizedNames ->
      returned (ApplyOperation h opReq) = None
      /\ synchronous (ApplyOperation h opReq) = []
      /\ exists task,
           launched (ApplyOperation h opReq) = [task]
           /\ forall c st err,
                In (Invoke c st (Some err)) (trace task) ->
                reportsFailure opReq err (trace task)).
Proof.
  repeat split.
  1-3: unfold ApplyOperation;
       destruct (CreateKubeconfigs h (K8sConfigs opReq)) as [h' oe];
       cbn [snd] in *; subst oe; reflexivity.
  1-3: unfold ApplyOperation;
       destruct (CreateKubeconfigs h (K8sConfigs opReq)) as [h' oe];
       cbn [snd] in *; subst oe;
       match goal with Hc : Config_GetObject_Operations = _ |- _ => rewrite Hc end;
       reflexivity.
  all: match goal with
       | Hk : _ = None, Hc : _ = inr ?ops, Hin : In _ _ |- _ =>
           pose proof (ApplyOperation_recognized h opReq ops Hk Hc (switch_recognized _ Hin))
             as (Hr & Hs & Ht)
       end; assumption.
Qed.

(** The control-plane goroutine for a descriptor that lists versions. *)
Lemma istioTask_versions (operations : Operations) (opReq : OperationRequest)
    (kubeConfigs : list string) (requestedVersion : string) (ee : EventsResponse)
    (d : Operation) :
  operations !! OperationName opReq = Some d ->
  Versions d <> [] ->
  let version := if utils_Contains (Versions d) requestedVersion then requestedVersion
                 else List.last (Versions d) "" in
  let c := installIstio (IsDeleteOperation opReq) false version (Namespace opReq)
             "default" kubeConfigs in
  invocations (trace (istioTask operations opReq kubeConfigs requestedVersion ee))
  = [Invoke c (respond c).1 (respond c).2].
Proof.
  intros Hd Hv version c. unfold istioTask. rewrite Hd. go_simpl.
  destruct (Versions d) as [|v vs] eqn:Hvs; [congruence |]. cbn [length Nat.eqb].
  rewrite effectiveVersion_spec by discriminate. go_simpl.
  fold version. fold c.
  destruct (respond c) as [st [e|]]; reflexivity.
Qed.

(** The control-plane goroutine for a descriptor without versions. *)
Lemma istioTask_no_versions (operations : Operations) (opReq : OperationRequest)
    (kubeConfigs : list string) (requestedVersion : string) (ee : EventsResponse)
    (d : Operation) :
  operations !! OperationName opReq = Some d ->
  Versions d = [] ->
  istioTask operations opReq kubeConfigs requestedVersion ee
  = ([StreamErr (failed ("Error while " +:+ "" +:+ " Istio service mesh " +:+ "")
                        ErrFetchIstioVersions ee) ErrFetchIstioVersions],
     Done tt).
Proof. intros Hd Hv. unfold istioTask. rewrite Hd. go_simpl. rewrite Hv. reflexivity. Qed.

(** The conformance goroutine for a descriptor with a template. *)
Lemma smiConformanceTask_call (operations : Operations) (opReq : OperationRequest)
    (ee : EventsResponse) (d : Operation) (manifest : string) (templates : list string) :
  operations !! OperationName opReq = Some d ->
  Templates d = manifest :: templates ->
  let c := RunSMITest {| smi_OperationID := OperationId ee;
                         smi_Manifest := manifest;
                         smi_Namespace := "meshery";
                         smi_Labels := [("istio-injection", "enabled")];
                         smi_Annotations := [] |} in
  invocations (trace (smiConformanceTask operations opReq ee))
  = [Invoke c (respond c).1 (respond c).2].
Proof.
  intros Hd Ht c. unfold smiConformanceTask. rewrite Hd. go_simpl. rewrite Ht. go_simpl.
  fold c. destruct (respond c) as [st [e|]]; reflexivity.
Qed.

Lemma ApplyOperation_launches (h : H) (opReq : OperationRequest) (operations : Operations) :
  (CreateKubeconfigs h (K8sConfigs opReq)).2 = None ->
  Config_GetObject_Operations = inr operations ->
  ApplyOperation h opReq
  = let e := newEventsResponse opReq in
    let h' := (CreateKubeconfigs h (K8sConfigs opReq)).1 in
    let go task := {| store := h'; returned := None; synchronous := [];
                      launched := [task e] |} in
    match switch (OperationName opReq) with
    | case_Istio => go (istioTask operations opReq (K8sConfigs opReq) (Version opReq))
    | case_SampleApp => go (sampleAppTask operations opReq (K8sConfigs opReq))
    | case_SmiConformance => go (smiConformanceTask operations opReq)
    | case_Policy => go (policyTask operations opReq (K8sConfigs opReq))
    | case_Custom => go (customTask opReq (K8sConfigs opReq))
    | case_LabelNamespace => go (labelNamespaceTask opReq (K8sConfigs opReq))
    | case_Addon => go (addonTask operations opReq (K8sConfigs opReq))
    | case_IstioVet => go (istioVetTask (K8sConfigs opReq))
    | case_EnvoyFilter => go (envoyFilterTask operations opReq (K8sConfigs opReq))
    | case_default =>
        {| store := h'; returned := None;
           synchronous := [StreamErr e ErrOpInvalid]; launched := [] |}
    end.
Proof.
  intros Hk Hc. unfold ApplyOperation.
  destruct (CreateKubeconfigs h (K8sConfigs opReq)) as [h' oe]. cbn [snd] in Hk. subst oe.
  rewrite Hc. reflexivity.
Qed.

End Dispatch_facts.

Section Dispatch_claims.

Context {H : Type} `{!Handler H} `{!Decls} `{!World}.

Import meshes adapter.

(** C1.  A request for the control-plane operation that passes the two
    checks, and whose descriptor lists at least one version, starts one
    goroutine that calls [installIstio] once; the version in that call is
    the requested version when the descriptor lists it, and the last
    listed version otherwise. *)
Theorem effective_version_is_requested_or_last
    (h : H) (opReq : OperationRequest) (operations : Operations) (d : Operation) :
  (CreateKubeconfigs h (K8sConfigs opReq)).2 = None ->
  Config_GetObject_Operations = inr operations ->
  OperationName opReq = IstioOperation ->
  operations !! OperationName opReq = Some d ->
  Versions d <> [] ->
  exists task version st err,
    launched (ApplyOperation h opReq) = [task]
    /\ invocations (trace task)
       = [Invoke (installIstio (IsDeleteOperation opReq) false version
                    (Namespace opReq) "default" (K8sConfigs opReq)) st err]
    /\ (In (Version opReq) (Versions d) -> version = Version opReq)
    /\ (~ In (Version opReq) (Versions d) -> version = List.last (Versions d) "").
Proof.
  intros Hk Hc Hname Hd Hv.
  rewrite (ApplyOperation_launches h opReq operations Hk Hc).
  rewrite Hname, switch_IstioOperation. cbn [launched].
  pose proof (istioTask_versions operations opReq (K8sConfigs opReq) (Version opReq)
                (newEventsResponse opReq) d Hd Hv) as Ht.
  cbv zeta in Ht.
  eexists _, _, _, _. split; [reflexivity |]. split; [exact Ht |].
  destruct (utils_Contains (Versions d) (Version opReq)) eqn:Hcont.
  - split; [reflexivity |]. intros Hn. exfalso. apply Hn. now apply utils_Contains_In.
  - split; [| reflexivity]. intros Hin. apply utils_Contains_In in Hin. congruence.
Qed.

(** C6, as the code has it.  A request that passes the two checks and
    names no recognized operation starts no goroutine and streams, before
    [ApplyOperation] returns nil, exactly one error record: the record
    built before the switch, with the summary [status.Deploying] and the
    details "Operation is not supported", together with [ErrOpInvalid]. *)
Theorem unrecognized_operation_streams_placeholder
    (h : H) (opReq : OperationRequest) (operations : Operations) :
  (CreateKubeconfigs h (K8sConfigs opReq)).2 = None ->
  Config_GetObject_Operations = inr operations ->
  ~ In (OperationName opReq) recognizedNames ->
  launched (ApplyOperation h opReq) = []
  /\ returned (ApplyOperation h opReq) = None
  /\ exists e,
       synchronous (ApplyOperation h opReq) = [StreamErr e ErrOpInvalid]
       /\ OperationId e = OperationID opReq
       /\ Summary e = status_Deploying
       /\ Details e = "Operation is not supported".
Proof.
  intros Hk Hc Hn. apply switch_default in Hn.
  rewrite (ApplyOperation_launches h opReq operations Hk Hc), Hn.
  cbn [launched returned synchronous].
  split; [reflexivity |]. split; [reflexivity |].
  exists (newEventsResponse opReq). repeat split.
Qed.

(** C8, as the code has it.  A request for the conformance test that
    passes the two checks, and whose descriptor has a template, starts one
    goroutine that runs the test with the namespace ["meshery"], whatever
    namespace the request names; the manifest is the descriptor's first
    template. *)
Theorem conformance_test_runs_in_meshery_namespace
    (h : H) (opReq : OperationRequest) (operations : Operations) (d : Operation)
    (manifest : string) (templates : list string) :
  (CreateKubeconfigs h (K8sConfigs opReq)).2 = None ->
  Config_GetObject_Operations = inr operations ->
  switch (OperationName opReq) = case_SmiConformance ->
  operations !! OperationName opReq = Some d ->
  Templates d = manifest :: templates ->
  exists task opts st err,
    launched (ApplyOperation h opReq) = [task]
    /\ invocations (trace task) = [Invoke (RunSMITest opts) st err]
    /\ smi_Namespace opts = "meshery"
    /\ smi_Manifest opts = manifest
    /\ smi_OperationID opts = OperationID opReq.
Proof.
  intros Hk Hc Hs Hd Ht.
  rewrite (ApplyOperation_launches h opReq operations Hk Hc), Hs. cbn [launched].
  pose proof (smiConformanceTask_call operations opReq (newEventsResponse opReq)
                d manifest templates Hd Ht) as Hcall.
  cbv zeta in Hcall.
  eexists _, _, _, _. split; [reflexivity |]. split; [exact Hcall |].
  repeat split.
Qed.

(** C9, as the code has it.  A request for the control-plane operation
    that passes the two checks, and whose descriptor lists no version, is
    dispatched like any other: [ApplyOperation] returns nil and starts one
    goroutine.  That goroutine calls nothing and streams one error record
    for [ErrFetchIstioVersions], whose details are that error's message. *)
Theorem no_versions_fails_inside_the_task
    (h : H) (opReq : OperationRequest) (operations : Operations) (d : Operation) :
  (CreateKubeconfigs h (K8sConfigs opReq)).2 = None ->
  Config_GetObject_Operations = inr operations ->
  OperationName opReq = IstioOperation ->
  operations !! OperationName opReq = Some d ->
  Versions d = [] ->
  returned (ApplyOperation h opReq) = None
  /\ synchronous (ApplyOperation h opReq) = []
  /\ exists task e,
       launched (ApplyOperation h opReq) = [task]
       /\ trace task = [StreamErr e ErrFetchIstioVersions]
       /\ result task = Done tt
       /\ invocations (trace task) = []
       /\ OperationId e = OperationID opReq
       /\ Details e = Error ErrFetchIstioVersions
       /\ ErrorCode e = GetCode ErrFetchIstioVersions.
Proof.
  intros Hk Hc Hname Hd Hv.
  rewrite (ApplyOperation_launches h opReq operations Hk Hc).
  rewrite Hname, switch_IstioOperation. cbn [launched returned synchronous].
  split; [reflexivity |]. split; [reflexivity |].
  eexists _, _. split; [reflexivity |].
  rewrite (istioTask_no_versions operations opReq _ _ _ d Hd Hv).
  cbn [trace result fst snd]. repeat split.
Qed.

End Dispatch_claims.

(** [C1] on the sample catalog, which lists 1.1 and 1.2: a request without
    a version. *)
Lemma effective_version_is_requested_or_last_witness :
  let opReq := sampleRequest "istio" "" "istio-system" [goodPayload] in
  exists task version st err,
    launched (dispatch (inr sampleCatalog) allSucceed opReq) = [task]
    /\ invocations (trace task)
       = [Invoke (installIstio false false version "istio-system" "default" [goodPayload])
            st err]
    /\ (In "" ["1.1"; "1.2"] -> version = "")
    /\ (~ In "" ["1.1"; "1.2"] -> version = List.last ["1.1"; "1.2"] "").
Proof.
  exact (@effective_version_is_requested_or_last MemStore _ sampleDecls
           (sampleWorld (inr sampleCatalog) allSucceed) MemStore_empty
           (sampleRequest "istio" "" "istio-system" [goodPayload])
           sampleCatalog (sampleDescriptor ["1.1"; "1.2"] [])
           eq_refl eq_refl eq_refl eq_refl ltac:(discriminate)).
Defined.

(** [C2] on three requests: one with a payload that is not YAML, one in a
    world whose catalog cannot be read, one that is dispatched. *)
Lemma ApplyOperation_returns_only_dispatch_failures_witness :
  (let r := dispatch (inr sampleCatalog) allFail
              (sampleRequest "istio" "" "istio-system" [badPayload]) in
   returned r = Some (errorString "yaml: cannot unmarshal {{{") /\ launched r = []
   /\ synchronous r = [])
  /\ (let r := dispatch (inl (errorString "key not found")) allFail
                 (sampleRequest "istio" "" "istio-system" [goodPayload]) in
      returned r = Some (errorString "key not found") /\ launched r = []
      /\ synchronous r = [])
  /\ (let opReq := sampleRequest "istio" "" "istio-system" [goodPayload] in
      let r := dispatch (inr sampleCatalog) allFail opReq in
      returned r = None /\ synchronous r = []
      /\ exists task,
           launched r = [task]
           /\ forall c st err,
                In (Invoke c st (Some err)) (trace task) ->
                @reportsFailure sampleDecls opReq err (trace task)).
Proof.
  split; [| split].
  - exact (proj1 (@ApplyOperation_returns_only_dispatch_failures MemStore _ sampleDecls
                    (sampleWorld (inr sampleCatalog) allFail) MemStore_empty
                    (sampleRequest "istio" "" "istio-system" [badPayload]))
                 (errorString "yaml: cannot unmarshal {{{") eq_refl).
  - exact (proj1 (proj2 (@ApplyOperation_returns_only_dispatch_failures MemStore _ sampleDecls
                    (sampleWorld (inl (errorString "key not found")) allFail) MemStore_empty
                    (sampleRequest "istio" "" "istio-system" [goodPayload])))
                 (errorString "key not found") eq_refl eq_refl).
  - exact (proj2 (proj2 (@ApplyOperation_returns_only_dispatch_failures MemStore _ sampleDecls
                    (sampleWorld (inr sampleCatalog) allFail) MemStore_empty
                    (sampleRequest "istio" "" "istio-system" [goodPayload])))
                 sampleCatalog eq_refl eq_refl (or_introl eq_refl)).
Defined.

(** The claim [C6] fails on the sample world: the one record streamed for an
    unknown operation has the summary "deploying". *)
Lemma unrecognized_operation_summary_counterexample :
  let opReq := sampleRequest "no-such-operation" "" "default" [goodPayload] in
  let r := dispatch (inr sampleCatalog) allSucceed opReq in
  ~ In "no-such-operation" (@recognizedNames sampleDecls)
  /\ (exists e, synchronous r = [StreamErr e (@ErrOpInvalid sampleDecls)]
                /\ meshes.Summary e = "deploying")
  /\ ~ (exists e err, synchronous r = [StreamErr e err]
                      /\ strings.Infix "invalid operation" (meshes.Summary e)).
Proof.
  intros opReq r. split; [| split].
  - vm_compute. intros Hin.
    repeat (destruct Hin as [Heq | Hin]; [discriminate Heq |]). exact Hin.
  - eexists. split; reflexivity.
  - intros (e & err & Hs & Hi). vm_compute in Hs. injection Hs as <- <-.
    apply strings_facts.Contains_Infix in Hi. vm_compute in Hi. discriminate Hi.
Qed.

(** The amended [C6] on the same request. *)
Lemma unrecognized_operation_streams_placeholder_witness :
  let opReq := sampleRequest "no-such-operation" "" "default" [goodPayload] in
  let r := dispatch (inr sampleCatalog) allSucceed opReq in
  launched r = [] /\ returned r = None
  /\ exists e,
       synchronous r = [StreamErr e (@ErrOpInvalid sampleDecls)]
       /\ meshes.OperationId e = "op-1"
       /\ meshes.Summary e = "deploying"
       /\ meshes.Details e = "Operation is not supported".
Proof.
  refine (@unrecognized_operation_streams_placeholder MemStore _ sampleDecls
            (sampleWorld (inr sampleCatalog) allSucceed) MemStore_empty
            (sampleRequest "no-such-operation" "" "default" [goodPayload])
            sampleCatalog eq_refl eq_refl _).
  vm_compute. intros Hin.
  repeat (destruct Hin as [Heq | Hin]; [discriminate Heq |]). exact Hin.
Defined.

(** The claim [C8] fails on the sample world: a conformance test requested
    for the namespace "bookinfo" runs in "meshery". *)
Lemma conformance_test_namespace_counterexample :
  let opReq := sampleRequest "smi_conformance" "" "bookinfo" [goodPayload] in
  let r := dispatch (inr sampleCatalog) allSucceed opReq in
  exists task opts st err,
    launched r = [task]
    /\ invocations (trace task) = [Invoke (RunSMITest opts) st err]
    /\ smi_Namespace opts = "meshery"
    /\ smi_Namespace opts <> adapter.Namespace opReq.
Proof.
  intros opReq r. eexists _, _, _, _.
  split; [reflexivity |]. split; [vm_compute; reflexivity |].
  split; [reflexivity | discriminate].
Qed.

(** The amended [C8] on the same request. *)
Lemma conformance_test_runs_in_meshery_namespace_witness :
  let opReq := sampleRequest "smi_conformance" "" "bookinfo" [goodPayload] in
  exists task opts st err,
    launched (dispatch (inr sampleCatalog) allSucceed opReq) = [task]
    /\ invocations (trace task) = [Invoke (RunSMITest opts) st err]
    /\ smi_Namespace opts = "meshery"
    /\ smi_Manifest opts = "manifest.yaml"
    /\ smi_OperationID opts = "op-1".
Proof.
  exact (@conformance_test_runs_in_meshery_namespace MemStore _ sampleDecls
           (sampleWorld (inr sampleCatalog) allSucceed) MemStore_empty
           (sampleRequest "smi_conformance" "" "bookinfo" [goodPayload])
           sampleCatalog (sampleDescriptor [] ["manifest.yaml"]) "manifest.yaml" []
           eq_refl eq_refl eq_refl eq_refl eq_refl).
Defined.

(** The claim [C9] fails on the catalog without versions: the dispatch does
    not fail, it returns nil and starts the goroutine. *)
Lemma no_versions_dispatch_counterexample :
  let opReq := sampleRequest "istio" "1.1" "istio-system" [goodPayload] in
  let r := dispatch (inr versionlessCatalog) allSucceed opReq in
  (exists d, versionlessCatalog !! adapter.OperationName opReq = Some d
             /\ adapter.Versions d = [])
  /\ returned r = None
  /\ length (launched r) = 1
  /\ ~ (exists err, returned r = Some err /\ launched r = []).
Proof.
  intros opReq r. split; [| split; [| split]].
  - eexists. split; [vm_compute; reflexivity | reflexivity].
  - reflexivity.
  - reflexivity.
  - intros (err & Hr & _). vm_compute in Hr. discriminate Hr.
Qed.

(** The amended [C9] on the same request. *)
Lemma no_versions_fails_inside_the_task_witness :
  let opReq := sampleRequest "istio" "1.1" "istio-system" [goodPayload] in
  let r := dispatch (inr versionlessCatalog) allSucceed opReq in
  returned r = None
  /\ synchronous r = []
  /\ exists task e,
       launched r = [task]
       /\ trace task = [StreamErr e (@ErrFetchIstioVersions sampleDecls)]
       /\ result task = Done tt
       /\ invocations (trace task) = []
       /\ meshes.OperationId e = "op-1"
       /\ meshes.Details e = "Unable to fetch Istio versions"
       /\ meshes.ErrorCode e = "1011".
Proof.
  exact (@no_versions_fails_inside_the_task MemStore _ sampleDecls
           (sampleWorld (inr versionlessCatalog) allSucceed) MemStore_empty
           (sampleRequest "istio" "1.1" "istio-system" [goodPayload])
           versionlessCatalog (sampleDescriptor [] [])
           eq_refl eq_refl eq_refl eq_refl eq_refl).
Defined.

(** ** Composite processing *)

Section ProcessOAM_facts.

Context {H : Type} `{!Handler H} `{!Decls} `{!World}.

Import meshes adapter.

Ltac go_simpl :=
  cbn [mbind mret G_bind G_ret bind ret perform call deref index panic block
       trace result fst snd app forEach nth_error].

Lemma parseComponents_spec (oamComps : list string) :
  forall comps : list any,
    parseComponents comps oamComps
    = (omap (fun acomp => match oam_ParseApplicationComponent acomp with
                          | inr _ => None
                          | inl _ => Some (Log_Error ErrParseOAMComponent)
                          end) oamComps,
       Done (comps ++ parsedComponents oamComps)).
Proof.
  induction oamComps as [|acomp rest IH]; intros comps.
  - cbn. now rewrite app_nil_r.
  - cbn [parseComponents]. unfold parsedComponents.
    change (omap ?f (acomp :: rest))
      with (match f acomp with Some y => y :: omap f rest | None => omap f rest end).
    cbv beta.
    destruct (oam_ParseApplicationComponent acomp) as [e|comp].
    + go_simpl. rewrite IH. reflexivity.
    + rewrite IH. unfold parsedComponents. now rewrite <- app_assoc.
Qed.

(** A run of [ProcessOAM] after a successful ingestion, phase by phase. *)
Lemma ProcessOAM_run (h : H) (oamReq : OAMRequest) :
  (CreateKubeconfigs h (OAM_K8sConfigs oamReq)).2 = None ->
  let c1 := componentsPhase oamReq in
  let c2 := configurationPhase oamReq in
  let msg1 := (respond c1).1 in
  let msg2 := (respond c2).1 in
  (ProcessOAM h oamReq).2
  = if DeleteOp oamReq then
      match (respond c2).2 with
      | Some err =>
          (parseLog oamReq ++ [Invoke c2 msg2 (Some err)],
           Done (msg2, Some (ErrProcessOAM err)))
      | None =>
          match (respond c1).2 with
          | Some err =>
              (parseLog oamReq ++ [Invoke c2 msg2 None; Invoke c1 msg1 (Some err)],
               Done (msg1 +:+ newline +:+ msg2, Some (ErrProcessOAM err)))
          | None =>
              (parseLog oamReq ++ [Invoke c2 msg2 None; Invoke c1 msg1 None],
               Done (msg1 +:+ newline +:+ msg2, None))
          end
      end
    else
      match (respond c1).2 with
      | Some err =>
          (parseLog oamReq ++ [Invoke c1 msg1 (Some err)],
           Done (msg1, Some (ErrProcessOAM err)))
      | None =>
          match (respond c2).2 with
          | Some err =>
              (parseLog oamReq ++ [Invoke c1 msg1 None; Invoke c2 msg2 (Some err)],
               Done (msg1 +:+ newline +:+ msg2, Some (ErrProcessOAM err)))
          | None =>
              (parseLog oamReq ++ [Invoke c1 msg1 None; Invoke c2 msg2 None],
               Done (msg1 +:+ newline +:+ msg2, None))
          end
      end.
Proof.
  intros Hk c1 c2 msg1 msg2. unfold ProcessOAM.
  destruct (CreateKubeconfigs h (OAM_K8sConfigs oamReq)) as [h' oe]. cbn [snd] in Hk.
  subst oe. cbn [snd]. rewrite parseComponents_spec. cbn [app]. go_simpl.
  subst c1 c2 msg1 msg2. unfold componentsPhase, configurationPhase, parseLog.
  destruct (oam_ParseApplicationConfiguration (OamConfig oamReq)) as [config [ce|]];
    cbn [fst snd]; go_simpl;
    destruct (DeleteOp oamReq);
    destruct (respond (HandleApplicationConfiguration config _ _)) as [m2 [e2|]];
    destruct (respond (HandleComponents _ _ _)) as [m1 [e1|]];
    go_simpl; rewrite <- ?app_assoc, ?app_nil_r; reflexivity.
Qed.

Lemma parseLog_calls_nothing (oamReq : OAMRequest) (calls : list Action) :
  invocations (parseLog oamReq ++ calls) = invocations calls.
Proof.
  unfold invocations, parseLog. rewrite !filter_app.
  assert (Hcomps : forall l : list string,
    filter (fun a => is_invoke a = true)
      (omap (fun acomp => match oam_ParseApplicationComponent acomp with
                          | inr _ => None
                          | inl _ => Some (Log_Error ErrParseOAMComponent)
                          end) l) = []).
  { induction l as [|acomp rest IH]; [reflexivity |].
    change (omap ?f (acomp :: rest))
      with (match f acomp with Some y => y :: omap f rest | None => omap f rest end).
    cbv beta. destruct (oam_ParseApplicationComponent acomp); [| exact IH].
    rewrite filter_cons. cbn [is_invoke]. rewrite decide_False by discriminate. exact IH. }
  rewrite Hcomps.
  now destruct (oam_ParseApplicationConfiguration (OamConfig oamReq)).2.
Qed.

(** The calls of a run, phase by phase. *)
Lemma ProcessOAM_calls (h : H) (oamReq : OAMRequest) :
  let c1 := componentsPhase oamReq in
  let c2 := configurationPhase oamReq in
  let calls := invocations (trace (ProcessOAM h oamReq).2) in
  calls = []
  \/ (DeleteOp oamReq = false
      /\ ((exists err, calls = [Invoke c1 (respond c1).1 (Some err)])
          \/ (exists err, calls = [Invoke c1 (respond c1).1 None; Invoke c2 (respond c2).1 err])))
  \/ (DeleteOp oamReq = true
      /\ ((exists err, calls = [Invoke c2 (respond c2).1 (Some err)])
          \/ (exists err, calls = [Invoke c2 (respond c2).1 None; Invoke c1 (respond c1).1 err]))).
Proof.
  intros c1 c2 calls. subst calls.
  destruct (CreateKubeconfigs h (OAM_K8sConfigs oamReq)).2 as [kerr|] eqn:Hk.
  - left. unfold ProcessOAM.
    destruct (CreateKubeconfigs h (OAM_K8sConfigs oamReq)) as [h' oe].
    cbn [snd] in Hk. subst oe. reflexivity.
  - right. pose proof (ProcessOAM_run h oamReq Hk) as Hrun. cbv zeta in Hrun.
    fold c1 c2 in Hrun. rewrite Hrun.
    destruct (DeleteOp oamReq); [right | left]; (split; [reflexivity |]);
      destruct (respond c2).2 as [e2|]; destruct (respond c1).2 as [e1|];
      cbn [trace fst]; rewrite parseLog_calls_nothing; eauto.
Qed.

Lemma allBefore_nil (first second : Action -> bool) : allBefore first second [].
Proof. intros i j a b Ha. now rewrite lookup_nil in Ha. Qed.

Lemma allBefore_one (first second : Action -> bool) (a : Action) :
  first a = false \/ second a = false -> allBefore first second [a].
Proof.
  intros Hor i j x y Hx Hy Hf Hs.
  assert (i = 0) as -> by (apply lookup_lt_Some in Hx; cbn [length] in Hx; lia).
  assert (j = 0) as -> by (apply lookup_lt_Some in Hy; cbn [length] in Hy; lia).
  cbn in Hx, Hy. injection Hx as <-. injection Hy as <-. destruct Hor; congruence.
Qed.

Lemma allBefore_two (first second : Action -> bool) (a b : Action) :
  second a = false -> first b = false -> allBefore first second [a; b].
Proof.
  intros Ha Hb i j x y Hx Hy Hf Hs.
  assert (i < 2) as Hi by (apply lookup_lt_Some in Hx; cbn [length] in Hx; lia).
  assert (j < 2) as Hj by (apply lookup_lt_Some in Hy; cbn [length] in Hy; lia).
  destruct i as [|[|i]]; [| | lia]; destruct j as [|[|j]]; try lia;
    cbn in Hx, Hy; injection Hx as <-; injection Hy as <-; congruence.
Qed.

End ProcessOAM_facts.

Section ProcessOAM_claims.

Context {H : Type} `{!Handler H} `{!Decls} `{!World}.

Import meshes adapter.

(** C4.  Among the calls of a run of [ProcessOAM]: without the delete
    flag, the components phase is one call that carries every component
    that parsed, it comes before any call of the configuration phase, and
    the configuration phase is only called after that call has returned
    without error; with the delete flag the two phases change places. *)
Theorem ProcessOAM_phase_order (h : H) (oamReq : OAMRequest) :
  let calls := invocations (trace (ProcessOAM h oamReq).2) in
  (DeleteOp oamReq = false ->
     allBefore isComponentsCall isConfigurationCall calls
     /\ (forall a, In a calls -> isComponentsCall a = true ->
           exists msg err, a = Invoke (componentsPhase oamReq) msg err)
     /\ (forall b, In b calls -> isConfigurationCall b = true ->
           exists msg, In (Invoke (componentsPhase oamReq) msg None) calls))
  /\ (DeleteOp oamReq = true ->
     allBefore isConfigurationCall isComponentsCall calls
     /\ (forall a, In a calls -> isConfigurationCall a = true ->
           exists msg err, a = Invoke (configurationPhase oamReq) msg err)
     /\ (forall b, In b calls -> isComponentsCall b = true ->
           exists msg, In (Invoke (configurationPhase oamReq) msg None) calls)).
Proof.
  intros calls. pose proof (ProcessOAM_calls h oamReq) as Hc. cbv zeta in Hc.
  fold calls in Hc. clearbody calls.
  destruct Hc as [-> | [(Hdel & [[err ->] | [err ->]]) | (Hdel & [[err ->] | [err ->]])]];
    split; intros Hflag; try congruence.
  - repeat split; [apply allBefore_nil | intros a [] | intros b []].
  - repeat split; [apply allBefore_nil | intros a [] | intros b []].
  - repeat split.
    + apply allBefore_one. now right.
    + intros a [<- | []] _. eauto.
    + intros b [<- | []] Hb. discriminate Hb.
  - repeat split.
    + now apply allBefore_two.
    + intros a [<- | [<- | []]] Ha; [eauto | discriminate Ha].
    + intros b _ _. eexists. left. reflexivity.
  - repeat split.
    + apply allBefore_one. now right.
    + intros a [<- | []] _. eauto.
    + intros b [<- | []] Hb. discriminate Hb.
  - repeat split.
    + now apply allBefore_two.
    + intros a [<- | [<- | []]] Ha; [eauto | discriminate Ha].
    + intros b _ _. eexists. left. reflexivity.
Qed.

(** C7, as the code has it.  After a successful ingestion, the message
    [ProcessOAM] returns is "M1\nM2" (components message, newline,
    configuration message) whenever the phase that runs first reports no
    failure, with or without the delete flag and whether or not the second
    phase fails; when the phase that runs first fails, the message is that
    phase's message alone. *)
Theorem ProcessOAM_message (h : H) (oamReq : OAMRequest) :
  (CreateKubeconfigs h (OAM_K8sConfigs oamReq)).2 = None ->
  let msg1 := (respond (componentsPhase oamReq)).1 in
  let msg2 := (respond (configurationPhase oamReq)).1 in
  let first := if DeleteOp oamReq then configurationPhase oamReq
               else componentsPhase oamReq in
  exists err,
    result (ProcessOAM h oamReq).2
    = Done (match (respond first).2 with
            | None => msg1 +:+ newline +:+ msg2
            | Some _ => (respond first).1
            end, err).
Proof.
  intros Hk msg1 msg2 first. subst msg1 msg2 first.
  pose proof (ProcessOAM_run h oamReq Hk) as Hrun. cbv zeta in Hrun. rewrite Hrun.
  destruct (DeleteOp oamReq);
    destruct (respond (configurationPhase oamReq)).2;
    destruct (respond (componentsPhase oamReq)).2;
    cbn [result snd]; eauto.
Qed.

End ProcessOAM_claims.

(** [C4] on a create request and on a delete request with three components,
    one of which does not parse, in the world where every call succeeds. *)
Lemma ProcessOAM_phase_order_witness :
  let w := sampleWorld (inr sampleCatalog) allSucceed in
  (let oamReq := sampleOAMRequest false ["comp-a"; ""; "comp-b"] "config" in
   let calls := invocations (trace (processOAM allSucceed oamReq).2) in
   calls = [ Invoke (HandleComponents [AStr "comp-a"; AStr "comp-b"] false [goodPayload])
               "components done" None;
             Invoke (HandleApplicationConfiguration (AStr "config") false [goodPayload])
               "configuration done" None ]
   /\ allBefore isComponentsCall isConfigurationCall calls
   /\ (forall a, In a calls -> isComponentsCall a = true ->
         exists msg err, a = Invoke (@componentsPhase w oamReq) msg err)
   /\ (forall b, In b calls -> isConfigurationCall b = true ->
         exists msg, In (Invoke (@componentsPhase w oamReq) msg None) calls))
  /\ (let oamReq := sampleOAMRequest true ["comp-a"; ""; "comp-b"] "config" in
      let calls := invocations (trace (processOAM allSucceed oamReq).2) in
      calls = [ Invoke (HandleApplicationConfiguration (AStr "config") true [goodPayload])
                  "configuration done" None;
                Invoke (HandleComponents [AStr "comp-a"; AStr "comp-b"] true [goodPayload])
                  "components done" None ]
      /\ allBefore isConfigurationCall isComponentsCall calls
      /\ (forall a, In a calls -> isConfigurationCall a = true ->
            exists msg err, a = Invoke (@configurationPhase w oamReq) msg err)
      /\ (forall b, In b calls -> isComponentsCall b = true ->
            exists msg, In (Invoke (@configurationPhase w oamReq) msg None) calls)).
Proof.
  split; (split; [vm_compute; reflexivity |]).
  - exact (proj1 (@ProcessOAM_phase_order MemStore _ sampleDecls
                    (sampleWorld (inr sampleCatalog) allSucceed) MemStore_empty
                    (sampleOAMRequest false ["comp-a"; ""; "comp-b"] "config"))
                 eq_refl).
  - exact (proj2 (@ProcessOAM_phase_order MemStore _ sampleDecls
                    (sampleWorld (inr sampleCatalog) allSucceed) MemStore_empty
                    (sampleOAMRequest true ["comp-a"; ""; "comp-b"] "config"))
                 eq_refl).
Defined.

(** The claim [C7] fails in the world where every call fails: a create
    request whose components phase fails returns that phase's message
    alone; there is no newline in it. *)
Lemma ProcessOAM_message_counterexample :
  let oamReq := sampleOAMRequest false ["comp-a"] "config" in
  let r := (processOAM allFail oamReq).2 in
  (exists err, result r = Done ("components failed", err))
  /\ ~ (exists m1 m2 err, result r = Done (m1 +:+ newline +:+ m2, err)).
Proof.
  intros oamReq r. split.
  - eexists. vm_compute. reflexivity.
  - intros (m1 & m2 & err & Hr).
    assert (Hm : "components failed" = m1 +:+ newline +:+ m2).
    { change (result r) with
        (@Done (string * option error)
           ("components failed",
            Some (@ErrProcessOAM sampleDecls (errorString "no such cluster")))) in Hr.
      now injection Hr. }
    assert (Hi : strings.Infix newline "components failed") by now exists m1, m2.
    apply strings_facts.Contains_Infix in Hi. vm_compute in Hi. discriminate Hi.
Qed.

(** The amended [C7] on the same request, and on a delete request in the
    world where every call succeeds. *)
Lemma ProcessOAM_message_witness :
  (exists err,
     result (processOAM allFail (sampleOAMRequest false ["comp-a"] "config")).2
     = Done ("components failed", err))
  /\ (exists err,
     result (processOAM allSucceed (sampleOAMRequest true ["comp-a"] "config")).2
     = Done ("components done" +:+ newline +:+ "configuration done", err)).
Proof.
  split.
  - exact (@ProcessOAM_message MemStore _ sampleDecls
             (sampleWorld (inr sampleCatalog) allFail) MemStore_empty
             (sampleOAMRequest false ["comp-a"] "config") eq_refl).
  - exact (@ProcessOAM_message MemStore _ sampleDecls
             (sampleWorld (inr sampleCatalog) allSucceed) MemStore_empty
             (sampleOAMRequest true ["comp-a"] "config") eq_refl).
Defined.

(** ** The verification feed *)

Section Feed_facts.

Context {H : Type} `{!Handler H} `{!Decls} `{!World}.

Import meshes adapter.

Lemma start_inOrder (records : list EventsResponse) (closes : bool) :
  inOrder records (start (records, closes)).
Proof. exists []. cbn. repeat split; try discriminate. Qed.

Lemma step_inOrder (records : list EventsResponse) (who : Turn) (s s' : Feed) :
  inOrder records s -> step who s = Some s' -> inOrder records s'.
Proof.
  intros (received & Hr & Hs & Hc & Hf) Hstep. destruct who; cbn [step] in Hstep.
  - destruct (unsent s) as [|msg rest] eqn:Hu.
    + destruct (closes s && negb (closed s)) eqn:Hb; [| discriminate Hstep].
      injection Hstep as <-. exists received.
      cbn [unsent buffer streamed closed finished].
      split; [exact Hr |]. split; [exact Hs |]. split; [reflexivity |].
      intros Hfin. split; [reflexivity | now apply Hf].
    + destruct (Nat.ltb (length (buffer s)) capacity) eqn:Hb; [| discriminate Hstep].
      injection Hstep as <-. exists received.
      cbn [unsent buffer streamed closed finished].
      split; [now rewrite <- app_assoc |]. split; [exact Hs |]. split.
      * intros Hcl. specialize (Hc Hcl). discriminate Hc.
      * intros Hfin. destruct (Hf Hfin) as [Hcl _]. specialize (Hc Hcl). discriminate Hc.
  - destruct (finished s) eqn:Hfin; [discriminate Hstep |].
    rewrite app_nil_r in Hs.
    destruct (buffer s) as [|msg rest] eqn:Hb.
    + destruct (closed s) eqn:Hcl; [| discriminate Hstep].
      injection Hstep as <-. exists received.
      cbn [unsent buffer streamed closed finished].
      split; [exact Hr |]. split; [now rewrite Hs |]. split; [exact Hc |].
      intros _. split; reflexivity.
    + injection Hstep as <-. exists (received ++ [msg]).
      cbn [unsent buffer streamed closed finished].
      split; [now rewrite <- app_assoc |].
      split; [now rewrite Hs, map_app, app_nil_r |]. split; [exact Hc |].
      intros Hx. discriminate Hx.
Qed.

Lemma run_inOrder (records : list EventsResponse) (schedule : list Turn) :
  forall s : Feed, inOrder records s -> inOrder records (run schedule s).
Proof.
  induction schedule as [|who rest IH]; intros s Hs; [exact Hs |].
  cbn [run]. apply IH. destruct (step who s) as [s'|] eqn:Hstep; [| exact Hs].
  now apply step_inOrder with (who := who) (s := s).
Qed.

(** A move never changes whether the producer closes, and brings the feed
    nearer to its end. *)
Lemma step_closes (who : Turn) (s s' : Feed) :
  step who s = Some s' -> closes s' = closes s.
Proof.
  destruct who; cbn [step]; intros Hstep.
  - destruct (unsent s); [destruct (closes s && negb (closed s)) |
                          destruct (Nat.ltb (length (buffer s)) capacity)];
      try discriminate Hstep; now injection Hstep as <-.
  - destruct (finished s); [discriminate Hstep |].
    destruct (buffer s); [destruct (closed s) |];
      try discriminate Hstep; now injection Hstep as <-.
Qed.

Lemma step_remaining (who : Turn) (s s' : Feed) :
  step who s = Some s' -> remaining s' < remaining s.
Proof.
  destruct who; cbn [step]; intros Hstep; unfold remaining.
  - destruct (unsent s) as [|msg rest].
    + destruct (closes s && negb (closed s)) eqn:Hb; [| discriminate Hstep].
      apply andb_true_iff in Hb as [_ Hb]. apply negb_true_iff in Hb.
      injection Hstep as <-. cbn. rewrite Hb. lia.
    + destruct (Nat.ltb (length (buffer s)) capacity); [| discriminate Hstep].
      injection Hstep as <-. cbn. rewrite length_app. cbn. lia.
  - destruct (finished s) eqn:Hf; [discriminate Hstep |].
    destruct (buffer s) as [|msg rest].
    + destruct (closed s); [| discriminate Hstep].
      injection Hstep as <-. cbn. lia.
    + injection Hstep as <-. cbn. lia.
Qed.

Lemma step_finished (who : Turn) (s s' : Feed) :
  finished s = true -> step who s = Some s' -> finished s' = true.
Proof.
  intros Hf. destruct who; cbn [step]; intros Hstep.
  - destruct (unsent s); [destruct (closes s && negb (closed s)) |
                          destruct (Nat.ltb (length (buffer s)) capacity)];
      try discriminate Hstep; now injection Hstep as <-.
  - rewrite Hf in Hstep. discriminate Hstep.
Qed.

Lemma run_closes (schedule : list Turn) :
  forall s : Feed, closes (run schedule s) = closes s.
Proof.
  induction schedule as [|who rest IH]; intros s; [reflexivity |].
  cbn [run]. rewrite IH. destruct (step who s) as [s'|] eqn:Hstep; [| reflexivity].
  now apply step_closes with (who := who).
Qed.

Lemma run_remaining (schedule : list Turn) :
  forall s : Feed, remaining (run schedule s) <= remaining s.
Proof.
  induction schedule as [|who rest IH]; intros s; [reflexivity |].
  cbn [run]. etransitivity; [apply IH |].
  destruct (step who s) as [s'|] eqn:Hstep; [| reflexivity].
  apply step_remaining in Hstep. cbn [from_option id]. lia.
Qed.

Lemma run_finished (schedule : list Turn) :
  forall s : Feed, finished s = true -> finished (run schedule s) = true.
Proof.
  induction schedule as [|who rest IH]; intros s Hf; [exact Hf |].
  cbn [run]. apply IH. destruct (step who s) as [s'|] eqn:Hstep; [| exact Hf].
  now apply step_finished with (who := who) (s := s).
Qed.

(** While the consumer is in its loop and the producer is one that closes
    the channel, one of the two goroutines can move. *)
Lemma round_moves (s : Feed) :
  closes s = true -> finished s = false ->
  remaining (run [Producer; Consumer] s) < remaining s.
Proof.
  intros Hc Hf. cbn [run].
  destruct (step Producer s) as [s1|] eqn:Hp; cbn [from_option id].
  - apply step_remaining in Hp.
    destruct (step Consumer s1) as [s2|] eqn:Hq; cbn [from_option id]; [| exact Hp].
    apply step_remaining in Hq. lia.
  - destruct (step Consumer s) as [s2|] eqn:Hq; cbn [from_option id].
    + now apply step_remaining in Hq.
    + exfalso. cbn [step] in Hp, Hq. rewrite Hf in Hq. rewrite Hc in Hp.
      destruct (buffer s) as [|msg rest] eqn:Hb; [| discriminate Hq].
      destruct (closed s) eqn:Hcl; [discriminate Hq |].
      destruct (unsent s); cbn in Hp; discriminate Hp.
Qed.

Lemma run_app (a b : list Turn) (s : Feed) : run (a ++ b) s = run b (run a s).
Proof. revert s. induction a as [|w a IH]; intros s; [reflexivity | cbn [run app]; apply IH]. Qed.

Lemma rounds_finish (n : nat) :
  forall s : Feed,
    closes s = true -> remaining s <= n -> finished (run (rounds n) s) = true.
Proof.
  induction n as [|n IH]; intros s Hc Hn.
  - cbn [rounds run]. unfold remaining in Hn. destruct (finished s); [reflexivity | lia].
  - destruct (finished s) eqn:Hf; [now apply run_finished |].
    change (rounds (S n)) with ([Producer; Consumer] ++ rounds n).
    rewrite run_app. apply IH.
    + now rewrite run_closes.
    + pose proof (round_moves s Hc Hf). lia.
Qed.

Lemma finished_streamed_all (records : list EventsResponse) (s : Feed) :
  inOrder records s -> finished s = true ->
  closed s = true /\ unsent s = [] /\ buffer s = []
  /\ streamed s = map forward records ++ [Log_Info "Done"].
Proof.
  intros (received & Hr & Hs & Hc & Hf) Hfin.
  destruct (Hf Hfin) as [Hcl Hb]. specialize (Hc Hcl).
  rewrite Hb, Hc, !app_nil_r in Hr. subst received.
  rewrite Hfin in Hs. auto.
Qed.

(** C5.  Under every schedule of the producer and the consumer of the
    verification feed: what has been streamed so far is the image, in
    production order, of the records received so far (the others are still
    in the channel or unsent); each record is streamed by [StreamErr] or
    [StreamWarn] with [ErrIstioVet] of an error made from its details when
    its type is error or warning, and by [StreamInfo] otherwise; a move of
    the consumer leaves the producer's side of the feed as it is, and the
    consumer leaves its loop only after the producer has sent everything
    and closed the channel, having streamed every record; and when the
    producer is one that closes the channel, giving both goroutines
    enough turns ends the run that way.  The trace of the goroutine that
    [ApplyOperation] starts is that of such a run. *)
Theorem verification_feed_forwarded_in_order
    (kubeConfigs : list string) (ee : EventsResponse) (schedule : list Turn) :
  let records := (RunVet kubeConfigs).1 in
  let s := run schedule (start (RunVet kubeConfigs)) in
  (exists received,
      records = received ++ buffer s ++ unsent s
      /\ streamed s = map forward received
                      ++ (if finished s then [Log_Info "Done"] else []))
  /\ (forall msg,
        forward msg
        = match EventType_ msg with
          | EventType_ERROR => StreamErr msg (ErrIstioVet (stderrors_New (Details msg)))
          | EventType_WARN => StreamWarn msg (ErrIstioVet (stderrors_New (Details msg)))
          | EventType_INFO | EventType_DEBUG => StreamInfo msg
          end)
  /\ (forall s1 s2, step Consumer s1 = Some s2 ->
        unsent s2 = unsent s1 /\ closed s2 = closed s1 /\ closes s2 = closes s1)
  /\ (finished s = true ->
        closed s = true /\ unsent s = [] /\ buffer s = []
        /\ streamed s = map forward records ++ [Log_Info "Done"])
  /\ ((RunVet kubeConfigs).2 = true ->
        let s' := run (schedule ++ rounds (2 * length records + 2))
                      (start (RunVet kubeConfigs)) in
        finished s' = true
        /\ streamed s' = map forward records ++ [Log_Info "Done"])
  /\ trace (istioVetTask kubeConfigs ee)
     = Go_RunVet kubeConfigs :: map forward records
       ++ (if (RunVet kubeConfigs).2 then [Log_Info "Done"] else []).
Proof.
  intros records s. subst records s.
  destruct (RunVet kubeConfigs) as [records closes] eqn:Hfeed. cbn [fst snd].
  assert (Hinv : forall sched, inOrder records (run sched (start (records, closes))))
    by (intros sched; apply run_inOrder, start_inOrder).
  split; [| split; [| split; [| split; [| split]]]].
  - destruct (Hinv schedule) as (received & Hr & Hs & _). now exists received.
  - intros msg. unfold forward. now destruct (EventType_ msg).
  - intros s1 s2 Hstep. cbn [step] in Hstep.
    destruct (finished s1); [discriminate Hstep |].
    destruct (buffer s1); [destruct (closed s1) eqn:Hcl |];
      try discriminate Hstep; injection Hstep as <-; auto.
  - intros Hfin. now apply finished_streamed_all.
  - intros ->. cbv zeta.
    assert (Hfin : finished (run (schedule ++ rounds (2 * length records + 2))
                                 (start (records, true))) = true).
    { rewrite run_app. apply rounds_finish; [now rewrite run_closes |].
      etransitivity; [apply run_remaining |]. unfold remaining. cbn. lia. }
    split; [exact Hfin |]. now apply finished_streamed_all.
  - rewrite istioVetTask_trace, Hfeed. reflexivity.
Qed.

End Feed_facts.

(** [C5] on the sample feed (info, warning, error, info), under a schedule
    that begins with the consumer waiting. *)
Lemma verification_feed_forwarded_in_order_witness :
  let w := sampleWorld (inr sampleCatalog) allSucceed in
  let s' := @run sampleDecls ([Consumer; Producer; Producer; Consumer] ++ rounds (2 * 4 + 2))
                (start (@RunVet w [goodPayload])) in
  finished s' = true
  /\ streamed s'
     = [ StreamInfo (sampleRecord meshes.EventType_INFO "scanning");
         StreamWarn (sampleRecord meshes.EventType_WARN "missing sidecar")
           (@ErrIstioVet sampleDecls (errorString "missing sidecar"));
         StreamErr (sampleRecord meshes.EventType_ERROR "port name mismatch")
           (@ErrIstioVet sampleDecls (errorString "port name mismatch"));
         StreamInfo (sampleRecord meshes.EventType_INFO "finished") ]
       ++ [Log_Info "Done"].
Proof.
  exact (proj1 (proj2 (proj2 (proj2 (proj2
           (@verification_feed_forwarded_in_order sampleDecls
              (sampleWorld (inr sampleCatalog) allSucceed) [goodPayload]
              (sampleRecord meshes.EventType_INFO "")
              [Consumer; Producer; Producer; Consumer])))))
           eq_refl).
Defined.

(** * Further properties of the code *)

(** ** Handler goroutines *)

Section Handler_outcomes.

Context {H : Type} `{!Handler H} `{!Decls} `{!World}.

Import meshes adapter.

Variables (operations : Operations) (opReq : OperationRequest)
          (kubeConfigs : list string) (requestedVersion : string)
          (ee : EventsResponse).

Ltac go_simpl :=
  cbn [mbind mret G_bind G_ret bind ret perform call deref index panic block
       trace result fst snd app forEach nth_error].

Ltac ends_after_call :=
  match goal with
  | |- context [respond ?c] =>
      let st := fresh "st" in
      let e := fresh "e" in
      destruct (respond c) as [st [e|]]; go_simpl; constructor
  end.

Lemma istioTask_Terminal :
  Terminal ee (istioTask operations opReq kubeConfigs requestedVersion ee).
Proof.
  unfold istioTask.
  destruct (operations !! OperationName opReq) as [d|]; go_simpl; [| constructor].
  destruct (Versions d) as [|v vs] eqn:Hv; cbn [length Nat.eqb]; go_simpl.
  - constructor.
  - rewrite effectiveVersion_spec by discriminate. go_simpl. ends_after_call.
Qed.

Lemma sampleAppTask_Terminal :
  Terminal ee (sampleAppTask operations opReq kubeConfigs ee).
Proof.
  unfold sampleAppTask.
  destruct (operations !! OperationName opReq) as [d|]; go_simpl; [| constructor].
  ends_after_call.
Qed.

Lemma smiConformanceTask_Terminal :
  Terminal ee (smiConformanceTask operations opReq ee).
Proof.
  unfold smiConformanceTask.
  destruct (operations !! OperationName opReq) as [d|]; go_simpl; [| constructor].
  destruct (Templates d) as [|manifest ts]; go_simpl; [constructor |].
  ends_after_call.
Qed.

Lemma policyTask_Terminal :
  Terminal ee (policyTask operations opReq kubeConfigs ee).
Proof.
  unfold policyTask.
  destruct (operations !! OperationName opReq) as [d|]; go_simpl; [| constructor].
  ends_after_call.
Qed.

Lemma customTask_Terminal : Terminal ee (customTask opReq kubeConfigs ee).
Proof. unfold customTask. go_simpl. ends_after_call. Qed.

Lemma labelNamespaceTask_Terminal : Terminal ee (labelNamespaceTask opReq kubeConfigs ee).
Proof. unfold labelNamespaceTask. go_simpl. ends_after_call. Qed.

Lemma addonTask_Terminal :
  Terminal ee (addonTask operations opReq kubeConfigs ee).
Proof.
  unfold addonTask.
  destruct (operations !! OperationName opReq) as [d|]; go_simpl; [| constructor].
  ends_after_call.
Qed.

Lemma envoyFilterTask_Terminal :
  Terminal ee (envoyFilterTask operations opReq kubeConfigs ee).
Proof.
  unfold envoyFilterTask.
  destruct (operations !! OperationName opReq) as [d|]; go_simpl; [| constructor].
  ends_after_call.
Qed.

End Handler_outcomes.

Section Dispatch_outcomes.

Context {H : Type} `{!Handler H} `{!Decls} `{!World}.

Import meshes adapter.

(** Every goroutine but that of the verification feed ends in one of the
    four ways of [Terminal]. *)
Lemma ApplyOperation_Terminal (h : H) (opReq : OperationRequest) (operations : Operations) :
  (CreateKubeconfigs h (K8sConfigs opReq)).2 = None ->
  Config_GetObject_Operations = inr operations ->
  switch (OperationName opReq) <> case_default ->
  switch (OperationName opReq) <> case_IstioVet ->
  exists task,
    launched (ApplyOperation h opReq) = [task]
    /\ Terminal (newEventsResponse opReq) task.
Proof.
  intros Hk Hc Hd Hv.
  rewrite (ApplyOperation_launches h opReq operations Hk Hc).
  destruct (switch (OperationName opReq)); try congruence;
    cbn [launched]; eexists; (split; [reflexivity |]).
  - apply istioTask_Terminal.
  - apply sampleAppTask_Terminal.
  - apply smiConformanceTask_Terminal.
  - apply policyTask_Terminal.
  - apply customTask_Terminal.
  - apply labelNamespaceTask_Terminal.
  - apply addonTask_Terminal.
  - apply envoyFilterTask_Terminal.
Qed.

Lemma failed_sameOrigin (summary : string) (err : error) (ee : EventsResponse) :
  sameOrigin ee (failed summary err ee).
Proof. repeat split. Qed.

Lemma succeeded_sameOrigin (summary details : string) (ee : EventsResponse) :
  sameOrigin ee (succeeded summary details ee).
Proof. repeat split. Qed.

End Dispatch_outcomes.

Section Dispatch_extras.

Context {H : Type} `{!Handler H} `{!Decls} `{!World}.

Import meshes adapter.

Ltac go_simpl :=
  cbn [mbind mret G_bind G_ret bind ret perform call deref index panic block
       trace result fst snd app forEach nth_error].

(** X1.  Whatever becomes of the request, the store [ApplyOperation] leaves
    is the one the ingestion of the request's kubeconfigs left.  When it
    returns an error it has started no goroutine and streamed nothing; when
    it returns nil it has done exactly one of the two: started one
    goroutine, or streamed one record itself. *)
Theorem ApplyOperation_outcome (h : H) (opReq : OperationRequest) :
  store (ApplyOperation h opReq) = (CreateKubeconfigs h (K8sConfigs opReq)).1
  /\ (forall err, returned (ApplyOperation h opReq) = Some err ->
        launched (ApplyOperation h opReq) = []
        /\ synchronous (ApplyOperation h opReq) = [])
  /\ (returned (ApplyOperation h opReq) = None ->
        length (launched (ApplyOperation h opReq))
        + length (synchronous (ApplyOperation h opReq)) = 1).
Proof.
  unfold ApplyOperation.
  destruct (CreateKubeconfigs h (K8sConfigs opReq)) as [h' [kerr|]]; cbn [fst].
  - repeat split; discriminate.
  - destruct Config_GetObject_Operations as [cerr|operations].
    + repeat split; discriminate.
    + destruct (switch (OperationName opReq)); repeat split; discriminate.
Qed.

(** X2.  Every record streamed for a request that is not the verification
    request, by [ApplyOperation] itself or by the goroutine it started,
    carries the request's operation id and the adapter's component type and
    name. *)
Theorem streamed_records_keep_origin
    (h : H) (opReq : OperationRequest) (operations : Operations) :
  (CreateKubeconfigs h (K8sConfigs opReq)).2 = None ->
  Config_GetObject_Operations = inr operations ->
  switch (OperationName opReq) <> case_IstioVet ->
  forall a ev,
    (In a (synchronous (ApplyOperation h opReq))
     \/ exists task, In task (launched (ApplyOperation h opReq)) /\ In a (trace task)) ->
    recordOf a = Some ev ->
    OperationId ev = OperationID opReq
    /\ Component ev = ServerConfig "type"
    /\ ComponentName ev = ServerConfig "name".
Proof.
  intros Hk Hc Hv a ev Hin Hrec.
  assert (Horigin : sameOrigin (newEventsResponse opReq) ev).
  { rewrite (ApplyOperation_launches h opReq operations Hk Hc) in Hin.
    destruct (switch (OperationName opReq)) eqn:Hs; try congruence;
      cbn [synchronous launched] in Hin.
    9: { destruct Hin as [[<- | []] | (task & [] & _)].
          injection Hrec as <-. repeat split. }
    all: destruct Hin as [[] | (task & [<- | []] & Ha)];
      match type of Ha with
      | In _ (trace ?t) =>
          assert (Ht : Terminal (newEventsResponse opReq) t)
            by first [ apply istioTask_Terminal | apply sampleAppTask_Terminal
                     | apply smiConformanceTask_Terminal | apply policyTask_Terminal
                     | apply customTask_Terminal | apply labelNamespaceTask_Terminal
                     | apply addonTask_Terminal | apply envoyFilterTask_Terminal ];
          inversion Ht as [msg Heq | summary err Heq | c st summary err Heq
                           | c st summary details Heq];
          rewrite <- Heq in Ha
      end;
      cbn [trace fst] in Ha;
      repeat (destruct Ha as [<- | Ha]; [try discriminate Hrec |]);
      try contradiction;
      injection Hrec as <-;
      auto using failed_sameOrigin, succeeded_sameOrigin. }
  destruct Horigin as (Hid & Hcomp & Hname & _). rewrite Hid, Hcomp, Hname.
  repeat split.
Qed.

(** X3.  The goroutine of a request that is neither the verification
    request nor unrecognized either finishes, having made at most one call
    and streamed exactly one record, or is stopped by a panic before it has
    called or streamed anything. *)
Theorem handler_streams_once_or_nothing
    (h : H) (opReq : OperationRequest) (operations : Operations) :
  (CreateKubeconfigs h (K8sConfigs opReq)).2 = None ->
  Config_GetObject_Operations = inr operations ->
  switch (OperationName opReq) <> case_default ->
  switch (OperationName opReq) <> case_IstioVet ->
  exists task,
    launched (ApplyOperation h opReq) = [task]
    /\ match result task with
       | Done _ => length (streams (trace task)) = 1
                   /\ length (invocations (trace task)) <= 1
       | Panic _ => trace task = []
       | Blocked => False
       end.
Proof.
  intros Hk Hc Hd Hv.
  destruct (ApplyOperation_Terminal h opReq operations Hk Hc Hd Hv) as (task & Hl & Ht).
  exists task. split; [exact Hl |].
  destruct Ht; cbn; auto.
Qed.

(** X4.  In such a goroutine an info record is only streamed after a call
    that returned no error, and it carries no error code, cause or
    remediation; an error record is streamed with the error of the call
    that failed, if a call was made. *)
Theorem info_record_means_success
    (h : H) (opReq : OperationRequest) (operations : Operations) :
  (CreateKubeconfigs h (K8sConfigs opReq)).2 = None ->
  Config_GetObject_Operations = inr operations ->
  switch (OperationName opReq) <> case_default ->
  switch (OperationName opReq) <> case_IstioVet ->
  exists task,
    launched (ApplyOperation h opReq) = [task]
    /\ (forall ev, In (StreamInfo ev) (trace task) ->
          (exists c st, In (Invoke c st None) (trace task))
          /\ (forall c st e, In (Invoke c st e) (trace task) -> e = None)
          /\ ErrorCode ev = "" /\ ProbableCause ev = ""
          /\ SuggestedRemediation ev = "")
    /\ (forall ev err, In (StreamErr ev err) (trace task) ->
          forall c st e, In (Invoke c st e) (trace task) -> e = Some err).
Proof.
  intros Hk Hc Hd Hv.
  destruct (ApplyOperation_Terminal h opReq operations Hk Hc Hd Hv) as (task & Hl & Ht).
  exists task. split; [exact Hl |].
  destruct Ht; cbn [trace fst]; split.
  - intros ev [].
  - intros ev err' [].
  - intros ev [Heq | []]. discriminate Heq.
  - intros ev err' _ c st e [Heq | []]. discriminate Heq.
  - intros ev [Heq | [Heq | []]]; discriminate Heq.
  - intros ev err' [Heq | [Heq | []]]; [discriminate Heq |].
    injection Heq as _ <-. intros c0 st0 e [Heq | [Heq | []]]; [| discriminate Heq].
    now injection Heq as _ _ <-.
  - intros ev [Heq | [Heq | []]]; [discriminate Heq |]. injection Heq as <-.
    split; [eexists _, _; left; reflexivity |].
    split; [| repeat split].
    intros c0 st0 e [Heq | [Heq | []]]; [| discriminate Heq].
    now injection Heq as _ _ <-.
  - intros ev err' [Heq | [Heq | []]]; discriminate Heq.
Qed.

End Dispatch_extras.

Section Version_extras.

Context {H : Type} `{!Handler H} `{!Decls} `{!World}.

Import meshes adapter.

Ltac go_simpl :=
  cbn [mbind mret G_bind G_ret bind ret perform call deref index panic block
       trace result fst snd app forEach nth_error].

Lemma last_In {A} (l : list A) (d : A) : l <> [] -> In (List.last l d) l.
Proof.
  induction l as [|x [|y rest] IH]; intros Hne; [congruence | now left |].
  right. apply IH. discriminate.
Qed.

Lemma In_invocations (a : Action) (t : list Action) :
  In a t -> is_invoke a = true -> In a (invocations t).
Proof.
  intros Hin Ha. unfold invocations. apply list_elem_of_In, list_elem_of_filter.
  split; [exact Ha | now apply list_elem_of_In].
Qed.

(** The version the control-plane goroutine settles on is one of the
    listed versions. *)
Lemma resolved_version_listed (versions : list string) (requestedVersion : string) :
  versions <> [] ->
  In (if utils_Contains versions requestedVersion then requestedVersion
      else List.last versions "") versions.
Proof.
  intros Hne. destruct (utils_Contains versions requestedVersion) eqn:Hc.
  - now apply utils_Contains_In.
  - now apply last_In.
Qed.

(** The whole run of the control-plane goroutine for a descriptor that
    lists versions. *)
Lemma istioTask_run (operations : Operations) (opReq : OperationRequest)
    (kubeConfigs : list string) (requestedVersion : string) (ee : EventsResponse)
    (d : Operation) :
  operations !! OperationName opReq = Some d ->
  Versions d <> [] ->
  let version := if utils_Contains (Versions d) requestedVersion then requestedVersion
                 else List.last (Versions d) "" in
  let c := installIstio (IsDeleteOperation opReq) false version (Namespace opReq)
             "default" kubeConfigs in
  let stat := (respond c).1 in
  istioTask operations opReq kubeConfigs requestedVersion ee
  = match (respond c).2 with
    | Some err =>
        ([Invoke c stat (Some err);
          StreamErr (failed ("Error while " +:+ stat +:+ " Istio service mesh " +:+ version)
                            err ee) err], Done tt)
    | None =>
        ([Invoke c stat None;
          StreamInfo (succeeded
                        ("Istio service mesh " +:+ version +:+ " " +:+ stat +:+ " successfully")
                        ("The Istio service mesh " +:+ version +:+ " is now " +:+ stat +:+ ".")
                        ee)], Done tt)
    end.
Proof.
  intros Hd Hv version c stat. unfold istioTask. rewrite Hd. go_simpl.
  destruct (Versions d) as [|v vs] eqn:Hvs; [congruence |]. cbn [length Nat.eqb].
  rewrite effectiveVersion_spec by discriminate. go_simpl.
  fold version. fold c. subst stat.
  destruct (respond c) as [st [e|]]; reflexivity.
Qed.

(** X5.  The control-plane goroutine never installs or removes a version
    the catalog does not list: the version of every [installIstio] call is
    an element of the descriptor's version list. *)
Theorem installed_version_is_listed
    (h : H) (opReq : OperationRequest) (operations : Operations) (d : Operation) :
  (CreateKubeconfigs h (K8sConfigs opReq)).2 = None ->
  Config_GetObject_Operations = inr operations ->
  OperationName opReq = IstioOperation ->
  operations !! OperationName opReq = Some d ->
  forall task del useManifest version namespace profile kubeconfigs st e,
    In task (launched (ApplyOperation h opReq)) ->
    In (Invoke (installIstio del useManifest version namespace profile kubeconfigs) st e)
       (trace task) ->
    In version (Versions d).
Proof.
  intros Hk Hc Hname Hd task del um version ns profile ks st e Htask Hin.
  rewrite (ApplyOperation_launches h opReq operations Hk Hc) in Htask.
  rewrite Hname, switch_IstioOperation in Htask. cbn [launched] in Htask.
  destruct Htask as [<- | []].
  destruct (Versions d) as [|v vs] eqn:Hv.
  - rewrite (istioTask_no_versions operations opReq _ _ _ d Hd Hv) in Hin.
    destruct Hin as [Heq | []]. discriminate Heq.
  - assert (Hne : Versions d <> []) by (rewrite Hv; discriminate).
    apply In_invocations in Hin; [| reflexivity].
    pose proof (istioTask_versions operations opReq (K8sConfigs opReq) (Version opReq)
                  (newEventsResponse opReq) d Hd Hne) as Ht.
    cbv zeta in Ht. rewrite Ht in Hin. destruct Hin as [Heq | []].
    injection Heq as _ _ Hver _ _ _ _ _. rewrite <- Hver, <- Hv.
    now apply resolved_version_listed.
Qed.

(** X6.  When the descriptor lists versions, the one record the
    control-plane goroutine streams, be it for a success or for a failure
    of [installIstio], names in its summary the version that call was made
    with. *)
Theorem record_names_installed_version
    (h : H) (opReq : OperationRequest) (operations : Operations) (d : Operation) :
  (CreateKubeconfigs h (K8sConfigs opReq)).2 = None ->
  Config_GetObject_Operations = inr operations ->
  OperationName opReq = IstioOperation ->
  operations !! OperationName opReq = Some d ->
  Versions d <> [] ->
  exists task version,
    launched (ApplyOperation h opReq) = [task]
    /\ (exists st e,
          In (Invoke (installIstio (IsDeleteOperation opReq) false version
                        (Namespace opReq) "default" (K8sConfigs opReq)) st e)
             (trace task))
    /\ (exists a ev, In a (trace task) /\ recordOf a = Some ev)
    /\ (forall a ev, In a (trace task) -> recordOf a = Some ev ->
          strings.Infix version (Summary ev)).
Proof.
  intros Hk Hc Hname Hd Hv.
  rewrite (ApplyOperation_launches h opReq operations Hk Hc).
  rewrite Hname, switch_IstioOperation. cbn [launched].
  pose proof (istioTask_run operations opReq (K8sConfigs opReq) (Version opReq)
                (newEventsResponse opReq) d Hd Hv) as Hrun.
  cbv zeta in Hrun.
  eexists _, _. split; [reflexivity |]. rewrite Hrun.
  match goal with |- context [respond ?c] => destruct (respond c) as [st [e|]] end;
    cbn [fst snd trace].
  - split; [eexists _, _; left; reflexivity |].
    split; [eexists _, _; split; [right; left; reflexivity | reflexivity] |].
    intros a ev [<- | [<- | []]] Hrec; [discriminate Hrec |]. injection Hrec as <-.
    change (strings.Infix
              (if utils_Contains (Versions d) (Version opReq) then Version opReq
               else List.last (Versions d) "")
              ("Error while " +:+ st +:+ " Istio service mesh "
               +:+ (if utils_Contains (Versions d) (Version opReq) then Version opReq
                    else List.last (Versions d) ""))).
    apply strings_facts.Infix_app_r, strings_facts.Infix_app_r,
          strings_facts.Infix_app_r, strings_facts.Infix_refl.
  - split; [eexists _, _; left; reflexivity |].
    split; [eexists _, _; split; [right; left; reflexivity | reflexivity] |].
    intros a ev [<- | [<- | []]] Hrec; [discriminate Hrec |]. injection Hrec as <-.
    change (strings.Infix
              (if utils_Contains (Versions d) (Version opReq) then Version opReq
               else List.last (Versions d) "")
              ("Istio service mesh "
               +:+ (if utils_Contains (Versions d) (Version opReq) then Version opReq
                    else List.last (Versions d) "")
               +:+ " " +:+ st +:+ " successfully")).
    apply strings_facts.Infix_app_r, strings_facts.Infix_app_l, strings_facts.Infix_refl.
Qed.

(** X7.  The body of the goroutine started for a conformance-test request
    whose descriptor has no template reaches the index [Templates[0]], which
    is out of range, before it calls [RunSMITest] and before it streams
    anything: its steps up to the panic contain no call and no record,
    whatever the world answers. *)
Theorem conformance_test_without_template_panics
    (h : H) (opReq : OperationRequest) (operations : Operations) (d : Operation) :
  (CreateKubeconfigs h (K8sConfigs opReq)).2 = None ->
  Config_GetObject_Operations = inr operations ->
  switch (OperationName opReq) = case_SmiConformance ->
  operations !! OperationName opReq = Some d ->
  Templates d = [] ->
  exists task msg,
    launched (ApplyOperation h opReq) = [task]
    /\ result task = Panic msg
    /\ invocations (trace task) = []
    /\ streams (trace task) = [].
Proof.
  intros Hk Hc Hs Hd Ht.
  rewrite (ApplyOperation_launches h opReq operations Hk Hc), Hs.
  cbn [launched]. eexists _, _. split; [reflexivity |].
  unfold smiConformanceTask. rewrite Hd. go_simpl. rewrite Ht. go_simpl.
  repeat split.
Qed.

End Version_extras.

(** ** Composite processing, continued *)

Section ProcessOAM_extras.

Context {H : Type} `{!Handler H} `{!Decls} `{!World}.

Import meshes adapter.

Lemma ProcessOAM_ingestion_failure_aux (h : H) (oamReq : OAMRequest) (err : error) :
  (CreateKubeconfigs h (OAM_K8sConfigs oamReq)).2 = Some err ->
  (ProcessOAM h oamReq).2 = ([], Done ("", Some err))
  /\ (ProcessOAM h oamReq).1 = (CreateKubeconfigs h (OAM_K8sConfigs oamReq)).1.
Proof.
  intros Hk. unfold ProcessOAM.
  destruct (CreateKubeconfigs h (OAM_K8sConfigs oamReq)) as [h' oe].
  cbn [snd] in Hk. subst oe. split; reflexivity.
Qed.

(** X10.  The loop over the components of a request never stops early and
    never fails: every component either parses and is kept, in request
    order, or is answered by one log entry for [ErrParseOAMComponent], so
    the kept components and the log entries add up to the components of
    the request. *)
Theorem parseComponents_partition (oamComps : list string) :
  exists logs,
    parseComponents [] oamComps = (logs, Done (parsedComponents oamComps))
    /\ length logs + length (parsedComponents oamComps) = length oamComps
    /\ Forall (fun a => a = Log_Error ErrParseOAMComponent) logs
    /\ (forall acomp comp,
          In acomp oamComps -> oam_ParseApplicationComponent acomp = inr comp ->
          In comp (parsedComponents oamComps)).
Proof.
  exists (omap (fun acomp => match oam_ParseApplicationComponent acomp with
                             | inr _ => None
                             | inl _ => Some (Log_Error ErrParseOAMComponent)
                             end) oamComps).
  split; [now rewrite parseComponents_spec |]. unfold parsedComponents.
  induction oamComps as [|acomp rest (IHlen & IHlog & IHin)].
  - repeat split; [constructor | intros ? ? []].
  - do 2 (change (omap ?f (acomp :: rest))
            with (match f acomp with Some y => y :: omap f rest | None => omap f rest end);
          cbv beta).
    destruct (oam_ParseApplicationComponent acomp) as [e|comp] eqn:Hp.
    + split; [cbn [length] in *; lia |]. split; [now constructor |].
      intros a c [<- | Hin] Ha; [congruence | now apply IHin with (acomp := a)].
    + split; [cbn [length] in *; lia |]. split; [exact IHlog |].
      intros a c [<- | Hin] Ha.
      * left. congruence.
      * right. now apply IHin with (acomp := a).
Qed.

(** X11.  A configuration that does not parse does not stop the request:
    [ErrParseOAMConfig] is logged, and the configuration phase is still
    called, with the value the parser returned, wherever it would have been
    called otherwise (always on delete, after a successful components phase
    on create). *)
Theorem unparsed_configuration_is_still_handled
    (h : H) (oamReq : OAMRequest) (parseErr : error) :
  (CreateKubeconfigs h (OAM_K8sConfigs oamReq)).2 = None ->
  (oam_ParseApplicationConfiguration (OamConfig oamReq)).2 = Some parseErr ->
  In (Log_Error ErrParseOAMConfig) (trace (ProcessOAM h oamReq).2)
  /\ (DeleteOp oamReq = true \/ (respond (componentsPhase oamReq)).2 = None ->
      exists st e,
        In (Invoke (HandleApplicationConfiguration
                      (oam_ParseApplicationConfiguration (OamConfig oamReq)).1
                      (DeleteOp oamReq) (OAM_K8sConfigs oamReq)) st e)
           (trace (ProcessOAM h oamReq).2)).
Proof.
  intros Hk Hp. pose proof (ProcessOAM_run h oamReq Hk) as Hrun. cbv zeta in Hrun.
  rewrite Hrun. fold (configurationPhase oamReq).
  assert (Hlog : forall calls, In (Log_Error ErrParseOAMConfig) (parseLog oamReq ++ calls)).
  { intros calls. apply in_or_app. left. unfold parseLog. apply in_or_app. right.
    rewrite Hp. now left. }
  split.
  - destruct (DeleteOp oamReq);
      destruct (respond (configurationPhase oamReq)).2;
      destruct (respond (componentsPhase oamReq)).2; cbn [trace fst]; apply Hlog.
  - intros Hreach.
    destruct (DeleteOp oamReq).
    + destruct (respond (configurationPhase oamReq)).2;
        [| destruct (respond (componentsPhase oamReq)).2];
        cbn [trace fst]; eexists _, _; apply in_or_app; right; left; reflexivity.
    + destruct Hreach as [Hdel | Hcomp]; [discriminate Hdel |]. rewrite Hcomp.
      destruct (respond (configurationPhase oamReq)).2;
        cbn [trace fst]; eexists _, _; apply in_or_app; right; right; left; reflexivity.
Qed.

(** X12.  The error [ProcessOAM] returns is the ingestion error if the
    ingestion failed; otherwise [ErrProcessOAM] of the error of the phase
    that runs first (configuration on delete, components on create) if that
    phase failed; otherwise [ErrProcessOAM] of the error of the other phase
    if that one failed; and nil only when the ingestion and both phases
    succeeded. *)
Theorem ProcessOAM_error (h : H) (oamReq : OAMRequest) :
  let first := if DeleteOp oamReq then configurationPhase oamReq
               else componentsPhase oamReq in
  let second := if DeleteOp oamReq then componentsPhase oamReq
                else configurationPhase oamReq in
  exists msg,
    result (ProcessOAM h oamReq).2
    = Done (msg,
            match (CreateKubeconfigs h (OAM_K8sConfigs oamReq)).2 with
            | Some err => Some err
            | None =>
                match (respond first).2 with
                | Some err => Some (ErrProcessOAM err)
                | None =>
                    match (respond second).2 with
                    | Some err => Some (ErrProcessOAM err)
                    | None => None
                    end
                end
            end).
Proof.
  intros first second. subst first second.
  destruct (CreateKubeconfigs h (OAM_K8sConfigs oamReq)).2 as [kerr|] eqn:Hk.
  - destruct (ProcessOAM_ingestion_failure_aux h oamReq kerr Hk) as [-> _]. eauto.
  - pose proof (ProcessOAM_run h oamReq Hk) as Hrun. cbv zeta in Hrun. rewrite Hrun.
    destruct (DeleteOp oamReq);
      destruct (respond (configurationPhase oamReq)).2;
      destruct (respond (componentsPhase oamReq)).2;
      cbn [result snd]; eauto.
Qed.

End ProcessOAM_extras.

(** ** Kubeconfig ingestion, continued *)

Section CreateKubeconfigs_extras.

Context {H : Type} `{!Handler H} `{!Decls} `{!World}.

Lemma ingested_app (a b : list string) (h : H) :
  ingested h (a ++ b) = ingested (ingested h a) b.
Proof. unfold ingested. apply fold_left_app. Qed.

Lemma failures_app (a b : list string) :
  forall h : H, failures h (a ++ b) = failures h a ++ failures (ingested h a) b.
Proof.
  induction a as [|k rest IH]; intros h; [reflexivity |].
  cbn [app failures]. change (ingested h (k :: rest)) with (ingested (ingest h k).1 rest).
  rewrite IH. now destruct (ingest h k).2.
Qed.

(** X13.  Ingesting a batch in one call is ingesting its first part and
    then, on the store that leaves, its second part: the final store is the
    same, and the one call returns nil exactly when both of the two calls
    do. *)
Theorem CreateKubeconfigs_app (h : H) (a b : list string) :
  (CreateKubeconfigs h (a ++ b)).1
    = (CreateKubeconfigs (CreateKubeconfigs h a).1 b).1
  /\ ((CreateKubeconfigs h (a ++ b)).2 = None
      <-> (CreateKubeconfigs h a).2 = None
          /\ (CreateKubeconfigs (CreateKubeconfigs h a).1 b).2 = None).
Proof.
  rewrite !CreateKubeconfigs_spec. cbn [fst snd].
  rewrite ingested_app, failures_app. split; [reflexivity |].
  destruct (failures h a), (failures (ingested h a) b); cbn [app];
    split; try tauto; try discriminate; intros [? ?]; discriminate.
Qed.

(** X16.  There is at most one failure for each payload, and a batch in
    which no payload parses leaves the store exactly as it was and fails
    once for each payload. *)
Theorem unparseable_batch_leaves_store (h : H) (kubeconfigs : list string) :
  length (failures h kubeconfigs) <= length kubeconfigs
  /\ (Forall (fun k => parses k = false) kubeconfigs ->
      (CreateKubeconfigs h kubeconfigs).1 = h
      /\ length (failures h kubeconfigs) = length kubeconfigs
      /\ (kubeconfigs <> [] -> (CreateKubeconfigs h kubeconfigs).2 <> None)).
Proof.
  split.
  - revert h. induction kubeconfigs as [|k rest IH]; intros h; [reflexivity |].
    cbn [failures length]. specialize (IH (ingest h k).1).
    destruct (ingest h k).2; cbn [length]; lia.
  - intros Hall. rewrite CreateKubeconfigs_spec. cbn [fst snd].
    assert (Hboth : ingested h kubeconfigs = h
                    /\ length (failures h kubeconfigs) = length kubeconfigs).
    { induction Hall as [|k rest Hk Hrest IH]; [split; reflexivity |].
      unfold parses in Hk. destruct (yaml_Unmarshal k) as [err|kc] eqn:Hu; [| discriminate Hk].
      unfold ingested. cbn [fold_left failures].
      rewrite (ingest_unparsed h k err Hu). cbn [fst snd length].
      destruct IH as [IHs IHl]. split; [exact IHs | now rewrite IHl]. }
    destruct Hboth as [Hs Hl]. repeat split; [exact Hs | exact Hl |].
    intros Hne. destruct (failures h kubeconfigs); [| discriminate].
    destruct kubeconfigs; [congruence | discriminate Hl].
Qed.

End CreateKubeconfigs_extras.

Section Merge_extras.

Context {H : Type} `{!Handler H} `{!LawfulHandler H} `{!Decls} `{!World}.

Import models.

Lemma scalarsSet_objects (h : H) (kconfig : Kubeconfig) (c : string) :
  c <> "kind" -> c <> "apiVersion" -> c <> "current-context" ->
  GetObject (scalarsSet h kconfig) c = GetObject h c.
Proof.
  intros Hkind Hapi Hcur. unfold scalarsSet.
  rewrite !GetObject_SetKey_ne by congruence. reflexivity.
Qed.

(** The scalar keys after the turn for a payload that parses, whether or
    not the merge of its collections goes through. *)
Lemma ingest_scalars (h : H) (kubeconfig : string) (kconfig : Kubeconfig) :
  yaml_Unmarshal kubeconfig = inr kconfig ->
  GetKey (ingest h kubeconfig).1 "kind" = Kind kconfig
  /\ GetKey (ingest h kubeconfig).1 "apiVersion" = APIVersion kconfig
  /\ GetKey (ingest h kubeconfig).1 "current-context" = CurrentContext kconfig.
Proof.
  intros Hparse. unfold ingest. rewrite Hparse. fold (scalarsSet h kconfig).
  pose proof (scalarsSet_kind h kconfig) as Hk.
  pose proof (scalarsSet_apiVersion h kconfig) as Ha.
  pose proof (scalarsSet_current_context h kconfig) as Hc.
  set (h0 := scalarsSet h kconfig) in *.
  destruct (SetObject h0 "preferences" (Preferences kconfig)) as [h1 [e1|]] eqn:E1;
    cbn [fst snd];
    [rewrite !(GetKey_after_SetObject _ _ _ _ _ _ E1) by discriminate; auto |].
  destruct (SetObject h1 "clusters" (Clusters kconfig)) as [h2 [e2|]] eqn:E2;
    cbn [fst snd];
    [rewrite !(GetKey_after_SetObject _ _ _ _ _ _ E2) by discriminate;
     rewrite !(GetKey_after_SetObject _ _ _ _ _ _ E1) by discriminate; auto |].
  destruct (SetObject h2 "users" (Users kconfig)) as [h3 [e3|]] eqn:E3;
    cbn [fst snd];
    [rewrite !(GetKey_after_SetObject _ _ _ _ _ _ E3) by discriminate;
     rewrite !(GetKey_after_SetObject _ _ _ _ _ _ E2) by discriminate;
     rewrite !(GetKey_after_SetObject _ _ _ _ _ _ E1) by discriminate; auto |].
  destruct (SetObject h3 "contexts" (Contexts kconfig)) as [h4 [e4|]] eqn:E4;
    cbn [fst snd];
    rewrite !(GetKey_after_SetObject _ _ _ _ _ _ E4) by discriminate;
    rewrite !(GetKey_after_SetObject _ _ _ _ _ _ E3) by discriminate;
    rewrite !(GetKey_after_SetObject _ _ _ _ _ _ E2) by discriminate;
    rewrite !(GetKey_after_SetObject _ _ _ _ _ _ E1) by discriminate; auto.
Qed.

(** X14.  After a collection of a payload is rejected, the collections
    that come after it in the merge order are not attempted for that
    payload: they read from the store as they did before the payload. *)
Theorem ingest_skips_later_collections
    (h : H) (kubeconfig : string) (kconfig : Kubeconfig) (err : error) :
  yaml_Unmarshal kubeconfig = inr kconfig ->
  (ingest h kubeconfig).2 = Some err ->
  let kept := accepted (scalarsSet h kconfig) (collections kconfig) in
  Forall (fun cv => GetObject (ingest h kubeconfig).1 cv.1 = GetObject h cv.1)
         (drop (S (length kept)) (collections kconfig)).
Proof.
  intros Hparse Herr kept. subst kept.
  destruct (ingest h kubeconfig) as [h' oe] eqn:Hing. cbn [fst snd] in *. subst oe.
  unfold ingest in Hing. rewrite Hparse in Hing.
  fold (scalarsSet h kconfig) in Hing.
  assert (Hobj : forall c, c <> "kind" -> c <> "apiVersion" -> c <> "current-context" ->
                           GetObject (scalarsSet h kconfig) c = GetObject h c)
    by (intros; now apply scalarsSet_objects).
  set (h0 := scalarsSet h kconfig) in *.
  unfold collections. cbn [accepted length].
  destruct (SetObject h0 "preferences" (Preferences kconfig)) as [h1 [e1|]] eqn:E1;
    cbn [fst snd].
  { injection Hing as <- <-. cbn [length drop].
    repeat constructor; cbn [fst snd];
      rewrite (GetObject_after_SetObject_ne _ _ _ _ _ _ E1) by discriminate;
      apply Hobj; discriminate. }
  destruct (SetObject h1 "clusters" (Clusters kconfig)) as [h2 [e2|]] eqn:E2;
    cbn [fst snd].
  { injection Hing as <- <-. cbn [length drop].
    repeat constructor; cbn [fst snd];
      rewrite (GetObject_after_SetObject_ne _ _ _ _ _ _ E2) by discriminate;
      rewrite (GetObject_after_SetObject_ne _ _ _ _ _ _ E1) by discriminate;
      apply Hobj; discriminate. }
  destruct (SetObject h2 "users" (Users kconfig)) as [h3 [e3|]] eqn:E3;
    cbn [fst snd].
  { injection Hing as <- <-. cbn [length drop].
    repeat constructor; cbn [fst snd];
      rewrite (GetObject_after_SetObject_ne _ _ _ _ _ _ E3) by discriminate;
      rewrite (GetObject_after_SetObject_ne _ _ _ _ _ _ E2) by discriminate;
      rewrite (GetObject_after_SetObject_ne _ _ _ _ _ _ E1) by discriminate;
      apply Hobj; discriminate. }
  destruct (SetObject h3 "contexts" (Contexts kconfig)) as [h4 [e4|]] eqn:E4;
    cbn [fst snd]; [| discriminate Hing].
  cbn [length drop]. constructor.
Qed.

(** X15.  Later payloads overwrite the scalar keys: after a batch, the
    keys kind, apiVersion and current-context hold the values of the last
    payload of the batch that parses, also when the merge of its
    collections or any other payload failed. *)
Theorem last_parsed_payload_sets_scalars
    (h : H) (kubeconfigs front : list string) (kubeconfig : string)
    (kconfig : Kubeconfig) :
  filter (fun k => parses k = true) kubeconfigs = front ++ [kubeconfig] ->
  yaml_Unmarshal kubeconfig = inr kconfig ->
  let h' := (CreateKubeconfigs h kubeconfigs).1 in
  GetKey h' "kind" = Kind kconfig
  /\ GetKey h' "apiVersion" = APIVersion kconfig
  /\ GetKey h' "current-context" = CurrentContext kconfig.
Proof.
  intros Hlast Hparse h'. subst h'.
  rewrite CreateKubeconfigs_spec. cbn [fst].
  rewrite ingested_parsed_only, Hlast.
  unfold ingested. rewrite fold_left_app. cbn [fold_left].
  now apply ingest_scalars.
Qed.

End Merge_extras.

(** ** The verification feed, continued *)

Section Feed_extras.

Context {H : Type} `{!Handler H} `{!Decls} `{!World}.

Import meshes adapter.

(** A producer that does not close the channel keeps the consumer in its
    loop. *)
Lemma step_open (who : Turn) (s s' : Feed) :
  closes s = false -> closed s = false -> finished s = false ->
  step who s = Some s' ->
  closes s' = false /\ closed s' = false /\ finished s' = false.
Proof.
  intros Hc Hcl Hf. destruct who; cbn [step]; intros Hstep.
  - rewrite Hc in Hstep. destruct (unsent s) as [|msg rest]; [discriminate Hstep |].
    destruct (Nat.ltb (length (buffer s)) capacity); [| discriminate Hstep].
    injection Hstep as <-. auto.
  - rewrite Hf, Hcl in Hstep. destruct (buffer s) as [|msg rest]; [discriminate Hstep |].
    injection Hstep as <-. auto.
Qed.

Lemma run_open (schedule : list Turn) :
  forall s : Feed,
    closes s = false -> closed s = false -> finished s = false ->
    closes (run schedule s) = false /\ closed (run schedule s) = false
    /\ finished (run schedule s) = false.
Proof.
  induction schedule as [|who rest IH]; intros s Hc Hcl Hf; [auto |].
  cbn [run]. destruct (step who s) as [s'|] eqn:Hstep; cbn [from_option id].
  - destruct (step_open who s s' Hc Hcl Hf Hstep) as (? & ? & ?). now apply IH.
  - now apply IH.
Qed.

Lemma round_drains (s : Feed) :
  closes s = false -> closed s = false -> finished s = false ->
  2 < remaining s ->
  remaining (run [Producer; Consumer] s) < remaining s.
Proof.
  intros Hc Hcl Hf Hrem. cbn [run].
  destruct (step Producer s) as [s1|] eqn:Hp; cbn [from_option id].
  - apply step_remaining in Hp.
    destruct (step Consumer s1) as [s2|] eqn:Hq; cbn [from_option id]; [| exact Hp].
    apply step_remaining in Hq. lia.
  - destruct (step Consumer s) as [s2|] eqn:Hq; cbn [from_option id].
    + now apply step_remaining in Hq.
    + exfalso. cbn [step] in Hp, Hq. unfold remaining in Hrem.
      rewrite Hf, Hcl in Hq. rewrite Hf, Hcl in Hrem. rewrite Hc in Hp.
      destruct (buffer s) as [|msg rest] eqn:Hb; [| discriminate Hq].
      destruct (unsent s) as [|m r]; [cbn in Hrem; lia |].
      cbn in Hp. discriminate Hp.
Qed.

Lemma rounds_drain (n : nat) :
  forall s : Feed,
    closes s = false -> closed s = false -> finished s = false ->
    remaining s <= n + 2 ->
    remaining (run (rounds n) s) <= 2.
Proof.
  induction n as [|n IH]; intros s Hc Hcl Hf Hn; [exact Hn |].
  destruct (Nat.le_gt_cases (remaining s) 2) as [Hle | Hgt].
  - etransitivity; [apply run_remaining | exact Hle].
  - change (rounds (S n)) with ([Producer; Consumer] ++ rounds n). rewrite run_app.
    destruct (run_open [Producer; Consumer] s Hc Hcl Hf) as (Hc' & Hcl' & Hf').
    apply IH; try assumption.
    pose proof (round_drains s Hc Hcl Hf Hgt). lia.
Qed.

(** X18.  When [RunVet] does not close the channel, the consumer never
    leaves its loop, whatever the schedule: the log entry "Done" is never
    written and the goroutine stays blocked on the channel.  Every record
    that was sent is streamed all the same, in order, once both goroutines
    have had enough turns. *)
Theorem feed_without_close_never_finishes
    (kubeConfigs : list string) (ee : EventsResponse) (schedule : list Turn) :
  (RunVet kubeConfigs).2 = false ->
  let records := (RunVet kubeConfigs).1 in
  finished (run schedule (start (RunVet kubeConfigs))) = false
  /\ ~ In (Log_Info "Done") (streamed (run schedule (start (RunVet kubeConfigs))))
  /\ streamed (run (schedule ++ rounds (2 * length records))
                   (start (RunVet kubeConfigs)))
     = map forward records
  /\ result (istioVetTask kubeConfigs ee) = Blocked.
Proof.
  intros Hclose records. subst records.
  destruct (RunVet kubeConfigs) as [records closes] eqn:Hfeed.
  cbn [fst snd] in *. subst closes.
  assert (Hopen : forall sched,
            closes (run sched (start (records, false))) = false
            /\ closed (run sched (start (records, false))) = false
            /\ finished (run sched (start (records, false))) = false)
    by (intros sched; now apply run_open).
  assert (Hinv : forall sched, inOrder records (run sched (start (records, false))))
    by (intros sched; apply run_inOrder, start_inOrder).
  split; [apply Hopen |]. split; [| split].
  - destruct (Hopen schedule) as (_ & _ & Hf).
    destruct (Hinv schedule) as (received & _ & Hs & _).
    rewrite Hs, Hf, app_nil_r. intros Hin.
    apply in_map_iff in Hin as (msg & Hm & _).
    pose proof (forward_is_stream msg) as Hst. now rewrite Hm in Hst.
  - destruct (Hopen (schedule ++ rounds (2 * length records))) as (_ & Hcl & Hf).
    destruct (Hinv (schedule ++ rounds (2 * length records)))
      as (received & Hr & Hs & _).
    assert (Hrem : remaining (run (schedule ++ rounds (2 * length records))
                                  (start (records, false))) <= 2).
    { rewrite run_app.
      destruct (Hopen schedule) as (Hc0 & Hcl0 & Hf0).
      apply rounds_drain; try assumption.
      etransitivity; [apply run_remaining |]. unfold remaining. cbn. lia. }
    unfold remaining in Hrem. rewrite Hcl, Hf in Hrem.
    destruct (unsent _) as [|m r]; [| cbn in Hrem; lia].
    destruct (buffer _) as [|m r]; [| cbn in Hrem; lia].
    rewrite !app_nil_r in Hr. subst received. now rewrite Hs, Hf, app_nil_r.
  - unfold istioVetTask. rewrite Hfeed.
    cbn [mbind G_bind bind perform]. rewrite forEach_forward. reflexivity.
Qed.

End Feed_extras.

(** ** The release-drafter script *)

Module release_drafter_facts.

Import release_drafter.

Lemma awk_insert_inserts (file : list string) :
  grep_q_anchored "tag-template:" file = true ->
  In "no-duplicate-categories: true" (awk_insert file).
Proof.
  unfold grep_q_anchored. induction file as [|line rest IH]; [discriminate |].
  cbn [existsb awk_insert]. destruct (String.prefix "tag-template:" line).
  - intros _. right. now left.
  - cbn [orb]. intros Hrest. right. now apply IH.
Qed.

Lemma fixLine_clean (line : string) :
  Forall (fun l => isLabelLine l = false) (fixLine line).
Proof.
  unfold fixLine.
  destruct (String.prefix "  label: " line) eqn:H2;
    [repeat constructor |].
  destruct (String.prefix "    label: " line) eqn:H4;
    [repeat constructor |].
  repeat constructor. unfold isLabelLine. now rewrite H2, H4.
Qed.

Lemma fixLine_unlabelled (line : string) :
  isLabelLine line = false -> fixLine line = [line].
Proof.
  unfold isLabelLine, fixLine. intros Hl. apply orb_false_iff in Hl as [-> ->].
  reflexivity.
Qed.

Lemma fixLabels_clean (file : list string) :
  Forall (fun l => isLabelLine l = false) (fixLabels file).
Proof.
  unfold fixLabels. induction file as [|line rest IH]; [constructor |].
  cbn [flat_map]. apply Forall_app. split; [apply fixLine_clean | exact IH].
Qed.

Lemma fixLabels_unlabelled (file : list string) :
  Forall (fun l => isLabelLine l = false) file -> fixLabels file = file.
Proof.
  unfold fixLabels. induction 1 as [|line rest Hl Hrest IH]; [reflexivity |].
  cbn [flat_map]. now rewrite (fixLine_unlabelled line Hl), IH.
Qed.

Lemma fixLabels_keeps (file : list string) (line : string) :
  In line file -> isLabelLine line = false -> In line (fixLabels file).
Proof.
  intros Hin Hl. unfold fixLabels. apply in_flat_map. exists line.
  split; [exact Hin |]. rewrite (fixLine_unlabelled line Hl). now left.
Qed.

Lemma grep_q_In (text line : string) (file : list string) :
  In line file -> strings.Contains line text = true -> grep_q text file = true.
Proof.
  intros Hin Hc. unfold grep_q. apply existsb_exists. now exists line.
Qed.

Lemma grep_q_anchored_In (prefix line : string) (file : list string) :
  In line file -> String.prefix prefix line = true ->
  grep_q_anchored prefix file = true.
Proof.
  intros Hin Hc. unfold grep_q_anchored. apply existsb_exists. now exists line.
Qed.

(** X19.  The check after the insertion cannot fail: the branch "Failed to
    insert no-duplicate-categories line" is never taken, because a file
    that has a line starting with "tag-template:" has, after the awk
    program, a line starting with "no-duplicate-categories:". *)
Theorem insertion_check_never_fails (file : list string) :
  rewriteFile file <> Error_line_not_inserted
  /\ (grep_q_anchored "tag-template:" file = true ->
      grep_q_anchored "no-duplicate-categories:" (awk_insert file) = true).
Proof.
  assert (Hins : grep_q_anchored "tag-template:" file = true ->
                 grep_q_anchored "no-duplicate-categories:" (awk_insert file) = true).
  { intros Ht. apply grep_q_anchored_In with (line := "no-duplicate-categories: true");
      [now apply awk_insert_inserts | reflexivity]. }
  split; [| exact Hins]. unfold rewriteFile.
  destruct (grep_q "no-duplicate-categories:" file); [discriminate |].
  destruct (grep_q_anchored "tag-template:" file); cbn [negb]; [| discriminate].
  rewrite Hins by reflexivity. discriminate.
Qed.

(** X20.  The rewriting is done once: a file the script has rewritten is
    skipped as "already configured" when the script meets it again. *)
Theorem rewritten_file_is_skipped_next_time (file out : list string) :
  rewriteFile file = Rewritten out ->
  rewriteFile out = Skipped_already_configured.
Proof.
  unfold rewriteFile at 1.
  destruct (grep_q "no-duplicate-categories:" file); [discriminate |].
  destruct (grep_q_anchored "tag-template:" file) eqn:Ht; cbn [negb]; [| discriminate].
  destruct (grep_q_anchored "no-duplicate-categories:" (awk_insert file));
    cbn [negb]; [| discriminate].
  intros [= <-]. unfold rewriteFile.
  rewrite (grep_q_In "no-duplicate-categories:" "no-duplicate-categories: true");
    [reflexivity | | reflexivity].
  apply fixLabels_keeps; [now apply awk_insert_inserts | reflexivity].
Qed.

(** X21.  The loop that turns [label:] lines into [labels:] lists leaves no
    line it would rewrite, so running it again changes nothing. *)
Theorem fixLabels_idempotent (file : list string) :
  Forall (fun l => isLabelLine l = false) (fixLabels file)
  /\ fixLabels (fixLabels file) = fixLabels file.
Proof.
  split; [apply fixLabels_clean |]. apply fixLabels_unlabelled, fixLabels_clean.
Qed.

Lemma fixLine_two_spaces (v : string) :
  fixLine ("  label: " +:+ v) = ["  labels:"; "    - " +:+ v].
Proof. destruct v; vm_compute; reflexivity. Qed.

Lemma fixLine_four_spaces (v : string) :
  fixLine ("    label: " +:+ v) = ["    labels:"; "      - " +:+ v].
Proof. destruct v; vm_compute; reflexivity. Qed.

(** X22.  A line ["  label: v"] is replaced, in place, by the two lines
    ["  labels:"] and ["    - v"], and likewise with four spaces of
    indentation; the lines around it stay in their order, and every line
    that is not such a label line is printed as it is. *)
Theorem fixLabels_rewrites_in_place (before after : list string) (v : string) :
  fixLabels (before ++ ["  label: " +:+ v] ++ after)
    = fixLabels before ++ ["  labels:"; "    - " +:+ v] ++ fixLabels after
  /\ fixLabels (before ++ ["    label: " +:+ v] ++ after)
    = fixLabels before ++ ["    labels:"; "      - " +:+ v] ++ fixLabels after
  /\ (forall line, isLabelLine line = false ->
        fixLabels (before ++ [line] ++ after)
        = fixLabels before ++ [line] ++ fixLabels after).
Proof.
  unfold fixLabels. repeat split.
  - rewrite !flat_map_app. cbn [flat_map]. now rewrite fixLine_two_spaces, app_nil_r.
  - rewrite !flat_map_app. cbn [flat_map]. now rewrite fixLine_four_spaces, app_nil_r.
  - intros line Hl. rewrite !flat_map_app. cbn [flat_map].
    now rewrite (fixLine_unlabelled line Hl).
Qed.

Lemma loop_without_arithmetic_errexit
    (remainder : Counters -> string -> Counters + nat) (repos : list string) :
  (forall c repo, exists c', remainder c repo = inl c') ->
  forall (c : Counters) (seen : list string),
    status (loop false remainder c seen repos) = 0
    /\ announced (loop false remainder c seen repos) = seen ++ repos.
Proof.
  intros Hrem. induction repos as [|repo rest IH]; intros c seen.
  - cbn. now rewrite app_nil_r.
  - cbn [loop post_increment andb].
    match goal with
    | |- context [remainder ?c' repo] => destruct (Hrem c' repo) as [c'' ->]
    end.
    destruct (IH c'' (seen ++ [repo])) as [-> ->].
    now rewrite <- app_assoc.
Qed.

(** X23.  Run by a bash that lets [set -e] act on [((...))] (version 4.1 or
    later), the script never gets past its first repository: the command
    [((processed++))] ends with status 1 while the counter is 0, so the
    script exits with status 1 right after announcing the first repository,
    before it clones anything, and counts no pull request, skip or error.
    Run by an older bash, the increment does not stop it: as long as no
    later command of a turn ends the script, every repository is announced
    and the script exits with status 0. *)
Theorem script_stops_at_first_increment
    (arithmetic_errexit : bool) (remainder : Counters -> string -> Counters + nat)
    (repo : string) (rest : list string) :
  let ending := script arithmetic_errexit remainder (repo :: rest) in
  (arithmetic_errexit = true ->
     status ending = 1
     /\ announced ending = [repo]
     /\ counters ending
        = {| processed := 1; updated := 0; skipped := 0; errors := 0 |})
  /\ (arithmetic_errexit = false ->
      (forall c r, exists c', remainder c r = inl c') ->
      status ending = 0 /\ announced ending = repo :: rest).
Proof.
  intros ending. subst ending. split.
  - intros ->. repeat split.
  - intros -> Hrem. unfold script.
    exact (loop_without_arithmetic_errexit remainder (repo :: rest) Hrem _ []).
Qed.

End release_drafter_facts.

(** ** The further properties on the sample world *)

(** [X2] on the record of a failed namespace labelling. *)
Lemma streamed_records_keep_origin_witness :
  let ev := {| meshes.OperationId := "op-1";
               meshes.Summary := "Error while labeling default";
               meshes.Details := "no such cluster";
               meshes.EventType_ := meshes.EventType_INFO;
               meshes.ErrorCode := "1003";
               meshes.ProbableCause := "";
               meshes.SuggestedRemediation := "";
               meshes.Component := "adapter";
               meshes.ComponentName := "istio" |} in
  meshes.OperationId ev = "op-1"
  /\ meshes.Component ev = "adapter"
  /\ meshes.ComponentName ev = "istio".
Proof.
  refine (@streamed_records_keep_origin MemStore _ sampleDecls
            (sampleWorld (inr sampleCatalog) allFail) MemStore_empty
            (sampleRequest "label-namespace" "" "default" [goodPayload])
            sampleCatalog eq_refl eq_refl _
            (StreamErr _ (meshkitError "1003" "no such cluster")) _
            (or_intror (ex_intro _ _ (conj (or_introl eq_refl)
                                           (or_intror (or_introl eq_refl)))))
            eq_refl).
  vm_compute. discriminate.
Defined.

(** [X3] on a conformance test that succeeds. *)
Lemma handler_streams_once_or_nothing_witness :
  let r := dispatch (inr sampleCatalog) allSucceed
             (sampleRequest "smi_conformance" "" "bookinfo" [goodPayload]) in
  exists task,
    launched r = [task]
    /\ match result task with
       | Done _ => length (streams (trace task)) = 1
                   /\ length (invocations (trace task)) <= 1
       | Panic _ => trace task = []
       | Blocked => False
       end.
Proof.
  refine (@handler_streams_once_or_nothing MemStore _ sampleDecls
            (sampleWorld (inr sampleCatalog) allSucceed) MemStore_empty
            (sampleRequest "smi_conformance" "" "bookinfo" [goodPayload])
            sampleCatalog eq_refl eq_refl _ _); vm_compute; discriminate.
Defined.

(** [X4] on a control-plane installation that succeeds. *)
Lemma info_record_means_success_witness :
  let r := dispatch (inr sampleCatalog) allSucceed
             (sampleRequest "istio" "1.1" "istio-system" [goodPayload]) in
  exists task,
    launched r = [task]
    /\ (forall ev, In (StreamInfo ev) (trace task) ->
          (exists c st, In (Invoke c st None) (trace task))
          /\ (forall c st e, In (Invoke c st e) (trace task) -> e = None)
          /\ meshes.ErrorCode ev = "" /\ meshes.ProbableCause ev = ""
          /\ meshes.SuggestedRemediation ev = "")
    /\ (forall ev err, In (StreamErr ev err) (trace task) ->
          forall c st e, In (Invoke c st e) (trace task) -> e = Some err).
Proof.
  refine (@info_record_means_success MemStore _ sampleDecls
            (sampleWorld (inr sampleCatalog) allSucceed) MemStore_empty
            (sampleRequest "istio" "1.1" "istio-system" [goodPayload])
            sampleCatalog eq_refl eq_refl _ _); vm_compute; discriminate.
Defined.

(** [X5] on a request for a version that is not listed. *)
Lemma installed_version_is_listed_witness : In "1.2" ["1.1"; "1.2"].
Proof.
  exact (@installed_version_is_listed MemStore _ sampleDecls
           (sampleWorld (inr sampleCatalog) allSucceed) MemStore_empty
           (sampleRequest "istio" "0.9" "istio-system" [goodPayload])
           sampleCatalog (sampleDescriptor ["1.1"; "1.2"] [])
           eq_refl eq_refl eq_refl eq_refl
           _ false false "1.2" "istio-system" "default" [goodPayload] "installed" None
           (or_introl eq_refl) (or_introl eq_refl)).
Defined.

(** [X6] on a control-plane installation that fails. *)
Lemma record_names_installed_version_witness :
  let opReq := sampleRequest "istio" "1.1" "istio-system" [goodPayload] in
  exists task version,
    launched (dispatch (inr sampleCatalog) allFail opReq) = [task]
    /\ (exists st e,
          In (Invoke (installIstio false false version "istio-system" "default"
                        [goodPayload]) st e) (trace task))
    /\ (exists a ev, In a (trace task) /\ recordOf a = Some ev)
    /\ (forall a ev, In a (trace task) -> recordOf a = Some ev ->
          strings.Infix version (meshes.Summary ev)).
Proof.
  exact (@record_names_installed_version MemStore _ sampleDecls
           (sampleWorld (inr sampleCatalog) allFail) MemStore_empty
           (sampleRequest "istio" "1.1" "istio-system" [goodPayload])
           sampleCatalog (sampleDescriptor ["1.1"; "1.2"] [])
           eq_refl eq_refl eq_refl eq_refl ltac:(discriminate)).
Defined.

(** [X7] on the catalog whose conformance entry has no template. *)
Lemma conformance_test_without_template_panics_witness :
  let r := dispatch (inr templatelessCatalog) allSucceed
             (sampleRequest "smi_conformance" "" "bookinfo" [goodPayload]) in
  exists task msg,
    launched r = [task]
    /\ result task = Panic msg
    /\ invocations (trace task) = []
    /\ streams (trace task) = [].
Proof.
  exact (@conformance_test_without_template_panics MemStore _ sampleDecls
           (sampleWorld (inr templatelessCatalog) allSucceed) MemStore_empty
           (sampleRequest "smi_conformance" "" "bookinfo" [goodPayload])
           templatelessCatalog (sampleDescriptor [] [])
           eq_refl eq_refl eq_refl eq_refl eq_refl).
Defined.

(** [X11] on a delete request whose configuration is empty. *)
Lemma unparsed_configuration_is_still_handled_witness :
  let oamReq := sampleOAMRequest true ["comp-a"] "" in
  let t := trace (processOAM allSucceed oamReq).2 in
  In (Log_Error (@ErrParseOAMConfig sampleDecls)) t
  /\ exists st e,
       In (Invoke (HandleApplicationConfiguration (AMap []) true [goodPayload]) st e) t.
Proof.
  pose proof (@unparsed_configuration_is_still_handled MemStore _ sampleDecls
                (sampleWorld (inr sampleCatalog) allSucceed) MemStore_empty
                (sampleOAMRequest true ["comp-a"] "")
                (errorString "unexpected end of JSON input") eq_refl eq_refl) as [Hlog Hcall].
  split; [exact Hlog | exact (Hcall (or_introl eq_refl))].
Defined.

(** [X14] on the payload whose clusters entry the store rejects: users and
    contexts are not written. *)
Lemma ingest_skips_later_collections_witness :
  let w := sampleWorld (inr sampleCatalog) allSucceed in
  Forall (fun cv => GetObject (@ingest MemStore _ w MemStore_empty halfPayload).1 cv.1
                    = GetObject MemStore_empty cv.1)
         [ ("users", models.Users halfKubeconfig);
           ("contexts", models.Contexts halfKubeconfig) ].
Proof.
  exact (@ingest_skips_later_collections MemStore _ MemStore_Lawful
           (sampleWorld (inr sampleCatalog) allSucceed)
           MemStore_empty halfPayload halfKubeconfig
           (meshkitError "11070" "cannot store a scalar under clusters")
           eq_refl eq_refl).
Defined.

(** [X15] on a batch that ends with a payload that is not YAML: the scalars
    are those of the payload before it, whose merge failed. *)
Lemma last_parsed_payload_sets_scalars_witness :
  let w := sampleWorld (inr sampleCatalog) allSucceed in
  let h' := (@CreateKubeconfigs MemStore _ sampleDecls w MemStore_empty
               [goodPayload; halfPayload; badPayload]).1 in
  GetKey h' "kind" = "Config"
  /\ GetKey h' "apiVersion" = "v1beta"
  /\ GetKey h' "current-context" = "ctx-b".
Proof.
  exact (@last_parsed_payload_sets_scalars MemStore _ MemStore_Lawful sampleDecls
           (sampleWorld (inr sampleCatalog) allSucceed)
           MemStore_empty [goodPayload; halfPayload; badPayload] [goodPayload]
           halfPayload halfKubeconfig eq_refl eq_refl).
Defined.

(** [X18] on the sample feed with the channel left open. *)
Lemma feed_without_close_never_finishes_witness :
  let s := fun schedule => @run sampleDecls schedule (start (sampleFeed, false)) in
  finished (s [Producer; Consumer; Consumer]) = false
  /\ ~ In (Log_Info "Done") (streamed (s [Producer; Consumer; Consumer]))
  /\ streamed (s ([Producer; Consumer; Consumer] ++ rounds (2 * 4)))
     = map (@forward sampleDecls) sampleFeed
  /\ result (@istioVetTask sampleDecls openFeedWorld [goodPayload]
               (sampleRecord meshes.EventType_INFO "")) = Blocked.
Proof.
  exact (@feed_without_close_never_finishes sampleDecls openFeedWorld [goodPayload]
           (sampleRecord meshes.EventType_INFO "") [Producer; Consumer; Consumer]
           eq_refl).
Defined.

(** [X20] on the sample file. *)
Lemma rewritten_file_is_skipped_next_time_witness :
  release_drafter.rewriteFile
    [ "name-template: 'Meshery Adapter v$NEXT_PATCH_VERSION'";
      "tag-template: 'v$NEXT_PATCH_VERSION'";
      "no-duplicate-categories: true";
      "categories:";
      "  - title: 'Features'";
      "    labels:";
      "      - 'kind/feature'" ]
  = release_drafter.Skipped_already_configured.
Proof.
  exact (release_drafter_facts.rewritten_file_is_skipped_next_time
           sampleDrafterFile _ eq_refl).
Defined.

(** The sample file, rewritten. *)
Example scenario_drafter_file :
  release_drafter.rewriteFile sampleDrafterFile
  = release_drafter.Rewritten
      [ "name-template: 'Meshery Adapter v$NEXT_PATCH_VERSION'";
        "tag-template: 'v$NEXT_PATCH_VERSION'";
        "no-duplicate-categories: true";
        "categories:";
        "  - title: 'Features'";
        "    labels:";
        "      - 'kind/feature'" ].
Proof. vm_compute. reflexivity. Qed.

(** A file that mentions the option anywhere, even in a comment, is
    skipped; a file without a tag template is an error. *)
Example scenario_drafter_skips :
  release_drafter.rewriteFile ["# no-duplicate-categories: false"; "tag-template: v1"]
  = release_drafter.Skipped_already_configured
  /\ release_drafter.rewriteFile ["  tag-template: v1"; "categories:"]
     = release_drafter.Error_no_tag_template.
Proof. split; vm_compute; reflexivity. Qed.

(** ** Kubeconfig ingestion as seen from the store *)

Section Ingestion_claim.

Context {H : Type} `{!Handler H} `{!LawfulHandler H} `{!Decls} `{!World}.

Import models.

(** The error of a turn is the failure of its payload on the store the
    turn starts from. *)
Lemma ingest_turnFailure (h : H) (kubeconfig : string) :
  (ingest h kubeconfig).2 = turnFailure h kubeconfig.
Proof.
  unfold ingest, turnFailure.
  destruct (yaml_Unmarshal kubeconfig) as [err|kconfig]; [reflexivity |].
  fold (scalarsSet h kconfig). set (h0 := scalarsSet h kconfig).
  unfold collections. cbn [rejection].
  destruct (SetObject h0 "preferences" (Preferences kconfig)) as [h1 [e1|]];
    cbn [fst snd]; [reflexivity |].
  destruct (SetObject h1 "clusters" (Clusters kconfig)) as [h2 [e2|]];
    cbn [fst snd]; [reflexivity |].
  destruct (SetObject h2 "users" (Users kconfig)) as [h3 [e3|]];
    cbn [fst snd]; [reflexivity |].
  destruct (SetObject h3 "contexts" (Contexts kconfig)) as [h4 [e4|]];
    cbn [fst snd]; reflexivity.
Qed.

(** After the turn for a payload that parses, every collection the store
    accepted reads back the payload's value. *)
Lemma ingest_accepted (h : H) (kubeconfig : string) (kconfig : Kubeconfig) :
  yaml_Unmarshal kubeconfig = inr kconfig ->
  Forall (fun cv => GetObject (ingest h kubeconfig).1 cv.1 = Some cv.2)
         (accepted (scalarsSet h kconfig) (collections kconfig)).
Proof.
  intros Hparse. unfold ingest. rewrite Hparse. fold (scalarsSet h kconfig).
  set (h0 := scalarsSet h kconfig). unfold collections. cbn [accepted].
  destruct (SetObject h0 "preferences" (Preferences kconfig)) as [h1 [e1|]] eqn:E1;
    cbn [fst snd]; [constructor |].
  destruct (SetObject h1 "clusters" (Clusters kconfig)) as [h2 [e2|]] eqn:E2;
    cbn [fst snd].
  { repeat constructor; cbn [fst snd].
    rewrite (GetObject_after_SetObject_ne _ _ _ _ _ _ E2) by discriminate.
    exact (GetObject_after_SetObject_eq _ _ _ _ E1). }
  destruct (SetObject h2 "users" (Users kconfig)) as [h3 [e3|]] eqn:E3;
    cbn [fst snd].
  { repeat constructor; cbn [fst snd].
    - rewrite (GetObject_after_SetObject_ne _ _ _ _ _ _ E3) by discriminate.
      rewrite (GetObject_after_SetObject_ne _ _ _ _ _ _ E2) by discriminate.
      exact (GetObject_after_SetObject_eq _ _ _ _ E1).
    - rewrite (GetObject_after_SetObject_ne _ _ _ _ _ _ E3) by discriminate.
      exact (GetObject_after_SetObject_eq _ _ _ _ E2). }
  destruct (SetObject h3 "contexts" (Contexts kconfig)) as [h4 [e4|]] eqn:E4;
    cbn [fst snd].
  { repeat constructor; cbn [fst snd].
    - rewrite (GetObject_after_SetObject_ne _ _ _ _ _ _ E4) by discriminate.
      rewrite (GetObject_after_SetObject_ne _ _ _ _ _ _ E3) by discriminate.
      rewrite (GetObject_after_SetObject_ne _ _ _ _ _ _ E2) by discriminate.
      exact (GetObject_after_SetObject_eq _ _ _ _ E1).
    - rewrite (GetObject_after_SetObject_ne _ _ _ _ _ _ E4) by discriminate.
      rewrite (GetObject_after_SetObject_ne _ _ _ _ _ _ E3) by discriminate.
      exact (GetObject_after_SetObject_eq _ _ _ _ E2).
    - rewrite (GetObject_after_SetObject_ne _ _ _ _ _ _ E4) by discriminate.
      exact (GetObject_after_SetObject_eq _ _ _ _ E3). }
  repeat constructor; cbn [fst snd].
  - rewrite (GetObject_after_SetObject_ne _ _ _ _ _ _ E4) by discriminate.
    rewrite (GetObject_after_SetObject_ne _ _ _ _ _ _ E3) by discriminate.
    rewrite (GetObject_after_SetObject_ne _ _ _ _ _ _ E2) by discriminate.
    exact (GetObject_after_SetObject_eq _ _ _ _ E1).
  - rewrite (GetObject_after_SetObject_ne _ _ _ _ _ _ E4) by discriminate.
    rewrite (GetObject_after_SetObject_ne _ _ _ _ _ _ E3) by discriminate.
    exact (GetObject_after_SetObject_eq _ _ _ _ E2).
  - rewrite (GetObject_after_SetObject_ne _ _ _ _ _ _ E4) by discriminate.
    exact (GetObject_after_SetObject_eq _ _ _ _ E3).
  - exact (GetObject_after_SetObject_eq _ _ _ _ E4).
Qed.

Lemma CreateKubeconfigs_store (h : H) (kubeconfigs : list string) :
  (CreateKubeconfigs h kubeconfigs).1 = ingested h kubeconfigs.
Proof. now rewrite CreateKubeconfigs_spec. Qed.

Lemma ingested_snoc (h : H) (before : list string) (k : string) :
  ingested h (before ++ [k]) = (ingest (ingested h before) k).1.
Proof. now rewrite ingested_app. Qed.

(** The failures of a batch are the failures of its payloads, each on the
    store the payloads before it left. *)
Lemma In_failures (kubeconfigs : list string) (err : error) :
  forall h : H,
    In err (failures h kubeconfigs)
    <-> exists before k after,
          kubeconfigs = before ++ k :: after
          /\ turnFailure (ingested h before) k = Some err.
Proof.
  induction kubeconfigs as [|k0 rest IH]; intros h.
  - split; [intros [] | intros (before & k & after & Heq & _)].
    now destruct before.
  - cbn [failures]. rewrite ingest_turnFailure. split.
    + intros Hin.
      assert (Hcases : turnFailure h k0 = Some err
                       \/ In err (failures (ingest h k0).1 rest)).
      { destruct (turnFailure h k0) as [e|]; [| now right].
        destruct Hin as [-> | Hin]; [now left | now right]. }
      destruct Hcases as [Hhead | Htail].
      * now exists [], k0, rest.
      * apply IH in Htail as (before & k & after & -> & Hk).
        exists (k0 :: before), k, after. split; [reflexivity | exact Hk].
    + intros (before & k & after & Heq & Hk). destruct before as [|b before].
      * cbn [app] in Heq. injection Heq as <- <-. cbn [ingested fold_left] in Hk.
        rewrite Hk. now left.
      * cbn [app] in Heq. injection Heq as <- ->.
        assert (Htail : In err (failures (ingest h k0).1 (before ++ k :: after)))
          by (apply IH; now exists before, k, after).
        destruct (turnFailure h k0); [now right | exact Htail].
Qed.

(** C3.  For every sequence of payloads, on a store that behaves as a
    key-value store.  Every payload that parses is merged, whatever becomes
    of the payloads around it: right after its turn the three scalar keys
    hold its values and every collection of it the store accepted reads
    back its value, and the rest of the batch goes on from that store.  A
    payload that does not parse changes nothing.  The result is nil exactly
    when no payload fails to parse or to merge; otherwise it is
    [mergeErrors] of the list of exactly those failures, one error whose
    message contains the message of each of them. *)
Theorem CreateKubeconfigs_continues_and_aggregates (h : H) (kubeconfigs : list string) :
  (forall before k after kconfig,
      kubeconfigs = before ++ k :: after ->
      yaml_Unmarshal k = inr kconfig ->
      let h1 := (CreateKubeconfigs h before).1 in
      let h2 := (CreateKubeconfigs h (before ++ [k])).1 in
      GetKey h2 "kind" = Kind kconfig
      /\ GetKey h2 "apiVersion" = APIVersion kconfig
      /\ GetKey h2 "current-context" = CurrentContext kconfig
      /\ Forall (fun cv => GetObject h2 cv.1 = Some cv.2)
                (accepted (scalarsSet h1 kconfig) (collections kconfig))
      /\ (CreateKubeconfigs h kubeconfigs).1 = (CreateKubeconfigs h2 after).1)
  /\ (forall before k after err,
        kubeconfigs = before ++ k :: after ->
        yaml_Unmarshal k = inl err ->
        (CreateKubeconfigs h (before ++ [k])).1 = (CreateKubeconfigs h before).1)
  /\ ((CreateKubeconfigs h kubeconfigs).2 = None
      <-> forall before k after,
            kubeconfigs = before ++ k :: after ->
            turnFailure (CreateKubeconfigs h before).1 k = None)
  /\ (exists errs,
        (CreateKubeconfigs h kubeconfigs).2
          = match errs with [] => None | _ :: _ => Some (mergeErrors errs) end
        /\ forall err,
             In err errs
             <-> exists before k after,
                   kubeconfigs = before ++ k :: after
                   /\ turnFailure (CreateKubeconfigs h before).1 k = Some err)
  /\ (forall before k after err,
        kubeconfigs = before ++ k :: after ->
        turnFailure (CreateKubeconfigs h before).1 k = Some err ->
        exists aggregated,
          (CreateKubeconfigs h kubeconfigs).2 = Some aggregated
          /\ strings.Infix (Error err) (Error aggregated)).
Proof.
  assert (Hin : forall err,
            In err (failures h kubeconfigs)
            <-> exists before k after,
                  kubeconfigs = before ++ k :: after
                  /\ turnFailure (CreateKubeconfigs h before).1 k = Some err).
  { intros err. rewrite In_failures. split;
      intros (before & k & after & Heq & Hk); exists before, k, after;
      (split; [exact Heq |]); [now rewrite CreateKubeconfigs_store
                              | now rewrite CreateKubeconfigs_store in Hk]. }
  split; [| split; [| split; [| split]]].
  - intros before k after kconfig -> Hparse h1 h2. subst h1 h2.
    rewrite !CreateKubeconfigs_store, ingested_snoc.
    destruct (ingest_scalars (ingested h before) k kconfig Hparse) as (Hk & Ha & Hc).
    repeat split; try assumption.
    + now apply ingest_accepted.
    + rewrite (ingested_app before (k :: after)). reflexivity.
  - intros before k after err -> Hparse.
    rewrite !CreateKubeconfigs_store, ingested_snoc.
    now rewrite (ingest_unparsed (ingested h before) k err Hparse).
  - rewrite CreateKubeconfigs_spec. cbn [snd]. split.
    + intros Hnone before k after Heq.
      destruct (turnFailure (CreateKubeconfigs h before).1 k) as [err|] eqn:Hk;
        [| reflexivity].
      assert (Herr : In err (failures h kubeconfigs))
        by (apply Hin; now exists before, k, after).
      destruct (failures h kubeconfigs); [destruct Herr | discriminate Hnone].
    + intros Hall. destruct (failures h kubeconfigs) as [|e errs] eqn:Hf; [reflexivity |].
      assert (Herr : In e (e :: errs)) by now left.
      apply Hin in Herr as (before & k & after & Heq & Hk).
      rewrite (Hall before k after Heq) in Hk. discriminate Hk.
  - exists (failures h kubeconfigs). split; [| exact Hin].
    rewrite CreateKubeconfigs_spec. cbn [snd].
    now destruct (failures h kubeconfigs).
  - intros before k after err Heq Hk.
    assert (Herr : In err (failures h kubeconfigs))
      by (apply Hin; now exists before, k, after).
    rewrite CreateKubeconfigs_spec. cbn [snd].
    destruct (failures h kubeconfigs) as [|e errs] eqn:Hf; [destruct Herr |].
    exists (mergeErrors (e :: errs)). split; [reflexivity |].
    now apply mergeErrors_keeps_message.
Qed.

End Ingestion_claim.

(** [C3] on three payloads, the first of which is not YAML and the last of
    which is rejected by the store: the second is merged in full, and the
    aggregated error mentions the decoding failure of the first. *)
Lemma CreateKubeconfigs_continues_and_aggregates_witness :
  let w := sampleWorld (inr sampleCatalog) allSucceed in
  let batch := [badPayload; goodPayload; halfPayload] in
  let h2 := (@CreateKubeconfigs MemStore _ sampleDecls w MemStore_empty
               [badPayload; goodPayload]).1 in
  (GetKey h2 "kind" = "Config"
   /\ GetKey h2 "apiVersion" = "v1"
   /\ GetKey h2 "current-context" = "ctx-a"
   /\ Forall (fun cv => GetObject h2 cv.1 = Some cv.2)
         [ ("preferences", AMap []);
           ("clusters", ASeq [AMap [("name", AStr "a")]]);
           ("users", ASeq [AMap [("name", AStr "admin")]]);
           ("contexts", ASeq [AMap [("name", AStr "ctx-a")]]) ]
   /\ (@CreateKubeconfigs MemStore _ sampleDecls w MemStore_empty batch).1
      = (@CreateKubeconfigs MemStore _ sampleDecls w h2 [halfPayload]).1)
  /\ (exists aggregated,
        (@CreateKubeconfigs MemStore _ sampleDecls w MemStore_empty batch).2
          = Some aggregated
        /\ strings.Infix "yaml: cannot unmarshal {{{" (Error aggregated)).
Proof.
  pose proof (@CreateKubeconfigs_continues_and_aggregates MemStore _ MemStore_Lawful
                sampleDecls (sampleWorld (inr sampleCatalog) allSucceed)
                MemStore_empty [badPayload; goodPayload; halfPayload])
    as (Hmerged & _ & _ & _ & Hmessage).
  split.
  - exact (Hmerged [badPayload] goodPayload [halfPayload] goodKubeconfig eq_refl eq_refl).
  - exact (Hmessage [] badPayload [goodPayload; halfPayload]
             (errorString "yaml: cannot unmarshal {{{") eq_refl eq_refl).
Defined.
